(** * The issue-backed object store of the extension

    The store client bundled with the extension keeps each application
    object in an issue of a hosted tracker: labels name the object, the issue
    body holds the snapshot written at creation, the comments are the log of
    updates. This file follows the bundle: the bounded cache ([IssueCache],
    class [m]), the store client (class [d]) and, behind [fetchFromGitHub],
    a model of the tracker's seven endpoints. Around the store it follows
    what the extension builds on it: the identifiers of the source
    integrations ([BaseSourceIntegration], [SourceIntegrationManager]), the
    URL hash [generatePaperIdFromUrl], the paper manager ([PaperManager]) and
    the session service ([SessionService]) with the worker's clock and timers.

    Conventions. Numbers that count or name things are [nat], times are [Z]
    in milliseconds, JSON numbers are integers (no code here computes with
    one). A text that may hold JSON is kept by what [JSON.parse] makes of it.
    An [async] method is a function from the world before the call (cache,
    tracker, clock) to an outcome and the world after it; the clock stands
    still during a call and moves between calls ([advance]). A query for
    issues carries its labels as the client sends them, one string joined
    with commas, which the tracker reads as a comma-separated list. *)

From stdpp Require Import gmap strings list fin_maps pretty.

Local Set Warnings "-register-all,-clear-no-such-hyp".
Local Open Scope Z_scope.

(** ** JSON values, as [JSON.parse] produces them *)

Inductive json : Type :=
| JNull
| JBool (b : bool)
| JNum (z : Z)
| JStr (s : string)
| JArr (items : list json)
| JObj (fields : list (string * json)).

(** Property read [o[k]] on a parsed object: [None] is [undefined]. *)
Fixpoint field (k : string) (fields : list (string * json)) : option json :=
  match fields with
  | [] => None
  | (k', v) :: rest => if String.eqb k k' then Some v else field k rest
  end.

(** JavaScript truthiness of a value that may be [undefined]. *)
Definition truthy (v : option json) : bool :=
  match v with
  | None | Some JNull | Some (JBool false) | Some (JNum 0) | Some (JStr "") => false
  | Some _ => true
  end.

Definition truthy_string (s : string) : bool := negb (String.eqb s "").

(** What the client can throw. [ApiError status] is
    [Error(`GitHub API error: ${status}`)]; a [SyntaxError] comes from
    [JSON.parse] and is kept with the text that did not parse, which the
    engine's message quotes. *)
Inductive exn : Type :=
| Error (msg : string)
| ApiError (status : nat)
| SyntaxError (source : string)
| TypeError.

(** A text is kept by what [JSON.parse] makes of it: the JSON value it
    spells, or no JSON at all. [JSON.stringify] of a JSON value is a text
    that parses back to it. *)
Inductive text : Type :=
| JSONText (v : json)
| OtherText (s : string).

Definition JSON_stringify (v : json) : text := JSONText v.

Definition JSON_parse (t : text) : exn + json :=
  match t with
  | JSONText v => inr v
  | OtherText s => inl (SyntaxError s)
  end.

(** [ls.join(",")] *)
Fixpoint join_commas (ls : list string) : string :=
  match ls with
  | [] => ""
  | l :: rest =>
      match rest with
      | [] => l
      | _ :: _ => l +:+ "," +:+ join_commas rest
      end
  end.

Fixpoint has_comma (s : string) : bool :=
  match s with
  | EmptyString => false
  | String c rest => String.eqb (String c "") "," || has_comma rest
  end.

(** ** The cache (class [m] of the bundle) *)

Module IssueCache.

Record entry : Type := Entry {
  issueNumber : nat;
  lastAccessed : Z;
  createdAt : Z;
  updatedAt : Z
}.

Record t : Type := Cache {
  cache : gmap string entry;
  maxSize : Z;
  ttl : Z;
  accessOrder : list string
}.

Record options : Type := Options {
  opt_maxSize : option Z;
  opt_ttl : option Z
}.

Definition constructor (e : options) : t :=
  {| cache := ∅;
     maxSize := default 1000 (opt_maxSize e);
     ttl := default (1000 * 60 * 60) (opt_ttl e);
     accessOrder := [] |}.

(** [indexOf] then [splice(t, 1)]: the first occurrence goes. *)
Fixpoint remove_first (e : string) (l : list string) : list string :=
  match l with
  | [] => []
  | x :: rest => if String.eqb x e then rest else x :: remove_first e rest
  end.

Definition removeFromAccessOrder (e : string) (c : t) : t :=
  {| cache := cache c; maxSize := maxSize c; ttl := ttl c;
     accessOrder := remove_first e (accessOrder c) |}.

Definition updateAccessOrder (e : string) (c : t) : t :=
  let c' := removeFromAccessOrder e c in
  {| cache := cache c'; maxSize := maxSize c'; ttl := ttl c';
     accessOrder := e :: accessOrder c' |}.

Definition with_cache (m : gmap string entry) (c : t) : t :=
  {| cache := m; maxSize := maxSize c; ttl := ttl c;
     accessOrder := accessOrder c |}.

Definition remove (e : string) (c : t) : t :=
  removeFromAccessOrder e (with_cache (delete e (cache c)) c).

(** [get(e)] at time [now]: the issue number, or [None] for [undefined]. *)
Definition get (now : Z) (e : string) (c : t) : option nat * t :=
  match cache c !! e with
  | Some ent =>
      if ttl c <? now - lastAccessed ent
      then (None, removeFromAccessOrder e (with_cache (delete e (cache c)) c))
      else (Some (issueNumber ent),
            updateAccessOrder e
              (with_cache (<[e := Entry (issueNumber ent) now (createdAt ent) (updatedAt ent)]>
                             (cache c)) c))
  | None => (None, c)
  end.

Definition set (now : Z) (e : string) (n : nat) (r_createdAt r_updatedAt : Z)
    (c : t) : t :=
  let c1 :=
    if (maxSize c <=? Z.of_nat (size (cache c))) && negb (bool_decide (is_Some (cache c !! e)))
    then match last (accessOrder c) with
         | Some s => if truthy_string s then remove s c else c
         | None => c
         end
    else c in
  updateAccessOrder e
    (with_cache (<[e := Entry n now r_createdAt r_updatedAt]> (cache c1)) c1).

Definition clear (c : t) : t :=
  {| cache := ∅; maxSize := maxSize c; ttl := ttl c; accessOrder := [] |}.

Definition getStats (c : t) : nat * Z * Z :=
  (size (cache c), maxSize c, ttl c).

Definition shouldRefresh (e : string) (observed : Z) (c : t) : bool :=
  match cache c !! e with
  | Some r => updatedAt r <? observed
  | None => true
  end.

End IssueCache.

(** ** The hosted issue tracker behind [fetchFromGitHub]

    The service is outside the repository; this is the model of the seven
    endpoints the client calls. Issues are kept newest first, the order in
    which the service lists them; a comment list is in creation order; a
    list answer carries one page of [per_page] items, since the client never
    asks for another page. *)

Module Tracker.

Inductive issue_state : Type := Open | Closed.

Record comment : Type := Comment {
  id : nat;
  comment_body : text;
  comment_created_at : Z;
  reactions : list string
}.

Record issue : Type := Issue {
  number : nat;
  title : string;
  body : option text;
  labels : list string;
  state : issue_state;
  created_at : Z;
  updated_at : Z;
  comments : list comment
}.

Record t : Type := Tracker {
  issues : list issue;
  last_number : nat;
  last_comment_id : nat;
  per_page : nat
}.

Definition with_issues (l : list issue) (tr : t) : t :=
  {| issues := l; last_number := last_number tr;
     last_comment_id := last_comment_id tr; per_page := per_page tr |}.

Definition state_eqb (a b : issue_state) : bool :=
  match a, b with
  | Open, Open | Closed, Closed => true
  | _, _ => false
  end.

Definition has_label (l : string) (i : issue) : bool :=
  existsb (String.eqb l) (labels i).

(** [POST /issues] *)
Definition post_issue (now : Z) (ttl : string) (b : text) (ls : list string)
    (tr : t) : issue * t :=
  let i := Issue (S (last_number tr)) ttl (Some b) ls Open now now [] in
  (i, {| issues := i :: issues tr; last_number := S (last_number tr);
         last_comment_id := last_comment_id tr; per_page := per_page tr |}).

(** [GET /issues/:number] *)
Definition get_issue (n : nat) (tr : t) : option issue :=
  List.find (fun i => Nat.eqb (number i) n) (issues tr).

(** The [labels] parameter of a query is read as a comma-separated list of
    label names. *)
Fixpoint labels_param (s : string) : list string :=
  match s with
  | EmptyString => [""]
  | String c rest =>
      if String.eqb (String c "") "," then "" :: labels_param rest
      else match labels_param rest with
           | l :: ls => String c l :: ls
           | [] => [String c ""]
           end
  end.

(** [GET /issues?labels=..&state=..&since=..]: the issues that carry every
    label asked for, in the state asked for ([None] is [all]), updated at
    or after [since]. *)
Definition matches (ls : list string) (st : option issue_state)
    (since : option Z) (i : issue) : bool :=
  forallb (fun l => has_label l i) ls
  && match st with Some s => state_eqb (state i) s | None => true end
  && match since with Some t0 => t0 <=? updated_at i | None => true end.

Definition list_issues (ls : list string) (st : option issue_state)
    (since : option Z) (tr : t) : list issue :=
  take (per_page tr) (List.filter (matches ls st since) (issues tr)).

(** The first issue numbered [n] is replaced by [f] of it. *)
Fixpoint alter_issue (f : issue -> issue) (n : nat) (l : list issue)
    : option (issue * list issue) :=
  match l with
  | [] => None
  | i :: rest =>
      if Nat.eqb (number i) n then Some (f i, f i :: rest)
      else match alter_issue f n rest with
           | Some (j, rest') => Some (j, i :: rest')
           | None => None
           end
  end.

(** [PATCH /issues/:number] with a new state *)
Definition patch_state (now : Z) (n : nat) (s : issue_state) (tr : t)
    : option (issue * t) :=
  match alter_issue
          (fun i => Issue (number i) (title i) (body i) (labels i) s
                          (created_at i) now (comments i))
          n (issues tr) with
  | Some (i, l) => Some (i, with_issues l tr)
  | None => None
  end.

(** [POST /issues/:number/comments] *)
Definition post_comment (now : Z) (n : nat) (b : text) (tr : t)
    : option (comment * t) :=
  let c := Comment (S (last_comment_id tr)) b now [] in
  match alter_issue
          (fun i => Issue (number i) (title i) (body i) (labels i) (state i)
                          (created_at i) now (comments i ++ [c])%list)
          n (issues tr) with
  | Some (_, l) =>
      Some (c, {| issues := l; last_number := last_number tr;
                  last_comment_id := S (last_comment_id tr);
                  per_page := per_page tr |})
  | None => None
  end.

(** [GET /issues/:number/comments] *)
Definition list_comments (n : nat) (tr : t) : option (list comment) :=
  match get_issue n tr with
  | Some i => Some (take (per_page tr) (comments i))
  | None => None
  end.

(** [POST /issues/comments/:id/reactions] *)
Fixpoint react_comment (cid : nat) (content : string) (l : list comment)
    : option (list comment) :=
  match l with
  | [] => None
  | c :: rest =>
      if Nat.eqb (id c) cid
      then Some (Comment (id c) (comment_body c) (comment_created_at c)
                         (reactions c ++ [content])%list :: rest)
      else match react_comment cid content rest with
           | Some rest' => Some (c :: rest')
           | None => None
           end
  end.

Fixpoint react_issues (cid : nat) (content : string) (l : list issue)
    : option (list issue) :=
  match l with
  | [] => None
  | i :: rest =>
      match react_comment cid content (comments i) with
      | Some cs =>
          Some (Issue (number i) (title i) (body i) (labels i) (state i)
                      (created_at i) (updated_at i) cs :: rest)
      | None =>
          match react_issues cid content rest with
          | Some rest' => Some (i :: rest')
          | None => None
          end
      end
  end.

Definition post_reaction (cid : nat) (content : string) (tr : t) : option t :=
  match react_issues cid content (issues tr) with
  | Some l => Some (with_issues l tr)
  | None => None
  end.

Definition empty (page : nat) : t :=
  {| issues := []; last_number := 0; last_comment_id := 0; per_page := page |}.

End Tracker.

(** ** The store client (class [d] of the bundle) *)

(** [this.token]: the constructor stores whatever it is given. *)
Inductive token : Type :=
| TokenNull
| TokenUndefined
| TokenString (s : string).

Definition token_truthy (t : token) : bool :=
  match t with
  | TokenString s => truthy_string s
  | _ => false
  end.

Record reactions_config : Type := Reactions {
  processed : string;
  initialState : string
}.

Record config : Type := Config {
  baseLabel : string;
  uidPrefix : string;
  config_reactions : reactions_config
}.

Record client_options : Type := ClientOptions {
  opt_baseLabel : option string;
  opt_uidPrefix : option string;
  opt_processed : option string;
  opt_initialState : option string;
  opt_cache : IssueCache.options
}.

Record client : Type := Client {
  client_token : token;
  repo : string;
  client_config : config
}.

(** The constructor: the client and its fresh cache, or the throw. *)
Definition constructor (e : token) (t : string) (r : client_options)
    : exn + client * IssueCache.t :=
  if truthy_string t
  then inr ({| client_token := e; repo := t;
               client_config :=
                 {| baseLabel := default "stored-object" (opt_baseLabel r);
                    uidPrefix := default "UID:" (opt_uidPrefix r);
                    config_reactions :=
                      {| processed := default "+1" (opt_processed r);
                         initialState := default "rocket" (opt_initialState r) |} |} |},
            IssueCache.constructor (opt_cache r))
  else inl (Error "Repository is required").

Definition default_options : client_options :=
  ClientOptions None None None None (IssueCache.Options None None).

Record object_meta : Type := Meta {
  objectId : string;
  label : string;
  issueNumber : nat;
  createdAt : Z;
  updatedAt : Z;
  version : nat
}.

Record StoredObject : Type := Stored {
  meta : object_meta;
  data : json
}.

Record history_entry : Type := HistoryEntry {
  timestamp : Z;
  type : json;
  entry_data : option json;
  commentId : nat
}.

(** What an operation runs in: the client's cache, the tracker, the clock. *)
Record world : Type := World {
  the_cache : IssueCache.t;
  tracker : Tracker.t;
  clock : Z
}.

Definition with_the_cache (c : IssueCache.t) (w : world) : world :=
  {| the_cache := c; tracker := tracker w; clock := clock w |}.

Definition with_tracker (tr : Tracker.t) (w : world) : world :=
  {| the_cache := the_cache w; tracker := tr; clock := clock w |}.

Definition advance (dt : Z) (w : world) : world :=
  {| the_cache := the_cache w; tracker := tracker w; clock := clock w + dt |}.

(** An [async] method: it ends in a value or a throw, and leaves a world. *)
Definition M (A : Type) : Type := world -> (exn + A) * world.

Definition ret {A} (a : A) : M A := fun w => (inr a, w).
Definition throw {A} (e : exn) : M A := fun w => (inl e, w).
Definition bind {A B} (m : M A) (k : A -> M B) : M B :=
  fun w => match m w with
           | (inr a, w') => k a w'
           | (inl e, w') => (inl e, w')
           end.
(** [try { m } catch { h }]: what [m] did before it threw stays done. *)
Definition catch {A} (m : M A) (h : M A) : M A :=
  fun w => match m w with
           | (inl _, w') => h w'
           | r => r
           end.
Definition lift {A} (r : exn + A) : M A := fun w => (r, w).

Notation "'let!' x := m 'in' k" := (bind m (fun x => k))
  (at level 10, x name, m at level 100, k at level 200).
Notation "'do!' m 'in' k" := (bind m (fun _ => k))
  (at level 10, m at level 100, k at level 200).

Definition cache_get (e : string) : M (option nat) :=
  fun w => let (r, c) := IssueCache.get (clock w) e (the_cache w) in
           (inr r, with_the_cache c w).
Definition cache_set (e : string) (n : nat) (c u : Z) : M unit :=
  fun w => (inr tt, with_the_cache (IssueCache.set (clock w) e n c u (the_cache w)) w).
Definition cache_remove (e : string) : M unit :=
  fun w => (inr tt, with_the_cache (IssueCache.remove e (the_cache w)) w).
Definition Date_now : M Z := fun w => (inr (clock w), w).

(** [fetchFromGitHub], one definition per endpoint called. A request for
    something the tracker does not have is answered 404, which
    [fetchFromGitHub] throws. *)
Definition answer {A} (r : option (A * Tracker.t)) : M A :=
  fun w => match r with
           | Some (a, tr) => (inr a, with_tracker tr w)
           | None => (inl (ApiError 404), w)
           end.

Definition POST_issues (ttl : string) (b : text) (ls : list string) : M Tracker.issue :=
  fun w => answer (Some (Tracker.post_issue (clock w) ttl b ls (tracker w))) w.
Definition GET_issue (n : nat) : M Tracker.issue :=
  fun w => answer (option_map (fun i => (i, tracker w)) (Tracker.get_issue n (tracker w))) w.
(** [GET /issues] with [params]; [labels] is the one string the client
    sends, [labels.join(",")] when it has several labels. *)
Definition GET_issues (labels : string) (st : option Tracker.issue_state)
    (since : option Z) : M (list Tracker.issue) :=
  fun w => (inr (Tracker.list_issues (Tracker.labels_param labels) st since (tracker w)), w).
Definition PATCH_issue (n : nat) (s : Tracker.issue_state) : M Tracker.issue :=
  fun w => answer (Tracker.patch_state (clock w) n s (tracker w)) w.
Definition POST_comments (n : nat) (b : text) : M Tracker.comment :=
  fun w => answer (Tracker.post_comment (clock w) n b (tracker w)) w.
Definition GET_comments (n : nat) : M (list Tracker.comment) :=
  fun w => answer (option_map (fun l => (l, tracker w)) (Tracker.list_comments n (tracker w))) w.
Definition POST_reactions (cid : nat) (content : string) : M unit :=
  fun w => answer (option_map (fun tr => (tt, tr)) (Tracker.post_reaction cid content (tracker w))) w.

(** [k in n] for the two keys the history decoder asks for, [_data] and
    [type], which no array and no prototype has; on [null] it is a
    TypeError. It is only asked of values whose [typeof] is [object]. *)
Definition JS_in (k : string) (n : json) : exn + bool :=
  match n with
  | JObj fs => inr (bool_decide (is_Some (field k fs)))
  | JArr _ => inr false
  | _ => inl TypeError
  end.

Definition typeof_object (n : json) : bool :=
  match n with
  | JNull | JArr _ | JObj _ => true
  | _ => false
  end.

(** [n.k]: [undefined] on anything but an object that has the field. *)
Definition get_field (k : string) (n : json) : option json :=
  match n with
  | JObj fs => field k fs
  | _ => None
  end.

(** [!r?.body] *)
Definition body_falsy (b : option text) : bool :=
  match b with
  | None | Some (OtherText "") => true
  | Some _ => false
  end.

(** [JSON.parse(r.body)]: a [null] body is read as the text [null]. *)
Definition JSON_parse_body (b : option text) : exn + json :=
  match b with
  | Some t => JSON_parse t
  | None => inr JNull
  end.

Section Methods.

(** [Date.prototype.toISOString], the platform's rendering of a time. *)
Variable toISOString : Z -> string.
Variable this : client.

Let cfg : config := client_config this.

Definition isPublic : bool :=
  match client_token this with
  | TokenNull => true
  | _ => false
  end.

(** [`${this.config.uidPrefix}${e}`] *)
Definition idLabel (e : string) : string := uidPrefix cfg +:+ e.

Definition createCommentPayload (e : json) (t : nat) (r : option string) : M json :=
  let! now := Date_now in
  let s := [("_data", e);
            ("_meta", JObj [("client_version", JStr "0.11.1");
                            ("timestamp", JStr (toISOString now));
                            ("update_mode", JStr "append");
                            ("issue_number", JNum (Z.of_nat t))])] in
  ret (JObj (match r with
             | Some ty => if truthy_string ty then (s ++ [("type", JStr ty)])%list else s
             | None => s
             end)).

Definition _verifyIssueLabels (e : Tracker.issue) (t : string) : bool :=
  existsb (fun s => String.eqb s (baseLabel cfg) || String.eqb s (idLabel t))
          (Tracker.labels e).

Definition _getVersion (e : nat) : M nat :=
  let! cs := GET_comments e in
  ret (length cs + 1)%nat.

Fixpoint _getObjectIdFromLabels_loop (ls : list string) : exn + string :=
  match ls with
  | [] => inl (Error ("No UID label found with prefix " +:+ uidPrefix cfg))
  | t :: rest =>
      if negb (String.eqb t (baseLabel cfg)) && String.prefix (uidPrefix cfg) t
      then inr (String.substring (String.length (uidPrefix cfg))
                                 (String.length t - String.length (uidPrefix cfg)) t)
      else _getObjectIdFromLabels_loop rest
  end.

Definition _getObjectIdFromLabels (e : Tracker.issue) : exn + string :=
  _getObjectIdFromLabels_loop (Tracker.labels e).

(** The [if(t) try {..} catch {..}] of [getObject]: the issue the cache
    points at, when it is there and passes the label check. *)
Definition getObject_cached (e : string) : M (option Tracker.issue) :=
  let! t := cache_get e in
  match t with
  | Some (S _ as n) =>
      catch (let! r := GET_issue n in
             if _verifyIssueLabels r e then ret (Some r)
             else do! cache_remove e in ret None)
            (do! cache_remove e in ret None)
  | _ => ret None
  end.

(** The [if(!r) {..}] of [getObject]: the label query. *)
Definition getObject_query (e : string) : M Tracker.issue :=
  let! c := GET_issues (join_commas ["gh-store"; baseLabel cfg; idLabel e])
                       (Some Tracker.Closed) None in
  match c with
  | [] => throw (Error ("No object found with ID: " +:+ e))
  | r :: _ => ret r
  end.

Definition getObject_assemble (e : string) (r : Tracker.issue) : M StoredObject :=
  if body_falsy (Tracker.body r)
  then throw (Error ("Invalid issue data received for ID: " +:+ e))
  else
    let! s := lift (JSON_parse_body (Tracker.body r)) in
    let i := Tracker.created_at r in
    let a := Tracker.updated_at r in
    do! cache_set e (Tracker.number r) i a in
    let! v := _getVersion (Tracker.number r) in
    ret {| meta := {| objectId := e; label := idLabel e;
                      issueNumber := Tracker.number r;
                      createdAt := i; updatedAt := a; version := v |};
           data := s |}.

Definition getObject (e : string) : M StoredObject :=
  let! r := getObject_cached e in
  let! r := match r with
            | Some r => ret r
            | None => getObject_query e
            end in
  getObject_assemble e r.

Definition createObject (e : string) (t : json) (r : list string) : M StoredObject :=
  if negb (token_truthy (client_token this))
  then throw (Error "Authentication required for creating objects")
  else
    let s := idLabel e in
    let i := (["gh-store"; baseLabel cfg; s] ++ r)%list in
    let! a := POST_issues ("Stored Object: " +:+ e) (JSON_stringify t) i in
    do! cache_set e (Tracker.number a) (Tracker.created_at a) (Tracker.updated_at a) in
    let! n := createCommentPayload t (Tracker.number a) (Some "initial_state") in
    let! c := POST_comments (Tracker.number a) (JSON_stringify n) in
    do! POST_reactions (Tracker.id c) (processed (config_reactions cfg)) in
    do! POST_reactions (Tracker.id c) (initialState (config_reactions cfg)) in
    let! _ := PATCH_issue (Tracker.number a) Tracker.Closed in
    ret {| meta := {| objectId := e; label := s;
                      issueNumber := Tracker.number a;
                      createdAt := Tracker.created_at a;
                      updatedAt := Tracker.updated_at a; version := 1 |};
           data := t |}.

Definition updateObject (e : string) (t : json) : M StoredObject :=
  if negb (token_truthy (client_token this))
  then throw (Error "Authentication required for updating objects")
  else
    let! r := GET_issues (join_commas [baseLabel cfg; idLabel e]) None None in
    match r with
    | [] => throw (Error ("No object found with ID: " +:+ e))
    | s :: _ =>
        let! i := createCommentPayload t (Tracker.number s) None in
        let! _ := POST_comments (Tracker.number s) (JSON_stringify i) in
        let! _ := PATCH_issue (Tracker.number s) Tracker.Open in
        getObject e
    end.

Definition is_archived (r : Tracker.issue) : bool :=
  existsb (fun s => String.eqb s "archived") (Tracker.labels r).

(** [t[s] = o] on the plain result object: the key [__proto__] sets the
    prototype and adds no property. *)
Definition assign (s : string) (o : StoredObject) (t : gmap string StoredObject)
    : gmap string StoredObject :=
  if String.eqb s "__proto__" then t else <[s := o]> t.

(** One turn of the [for..of] of [listAll], inside its [try]. *)
Definition listAll_step (r : Tracker.issue) (t : gmap string StoredObject)
    : M (gmap string StoredObject) :=
  let! s := lift (_getObjectIdFromLabels r) in
  let! i := lift (JSON_parse_body (Tracker.body r)) in
  let! v := _getVersion (Tracker.number r) in
  let a := {| objectId := s; label := s; issueNumber := Tracker.number r;
              createdAt := Tracker.created_at r;
              updatedAt := Tracker.updated_at r; version := v |} in
  ret (assign s {| meta := a; data := i |} t).

Fixpoint listAll_loop (e : list Tracker.issue) (t : gmap string StoredObject)
    : M (gmap string StoredObject) :=
  match e with
  | [] => ret t
  | r :: rest =>
      if is_archived r then listAll_loop rest t
      else let! t' := catch (listAll_step r t) (ret t) in
           listAll_loop rest t'
  end.

Definition listAll : M (gmap string StoredObject) :=
  let! e := GET_issues (baseLabel cfg) (Some Tracker.Closed) None in
  listAll_loop e ∅.

Definition listUpdatedSince_step (e : Z) (s : Tracker.issue)
    (r : gmap string StoredObject) : M (gmap string StoredObject) :=
  let! i := lift (_getObjectIdFromLabels s) in
  let! a := lift (JSON_parse_body (Tracker.body s)) in
  let n := Tracker.updated_at s in
  if e <? n
  then
    let! v := _getVersion (Tracker.number s) in
    let c := {| objectId := i; label := i; issueNumber := Tracker.number s;
                createdAt := Tracker.created_at s; updatedAt := n;
                version := v |} in
    ret (assign i {| meta := c; data := a |} r)
  else ret r.

Fixpoint listUpdatedSince_loop (e : Z) (t : list Tracker.issue)
    (r : gmap string StoredObject) : M (gmap string StoredObject) :=
  match t with
  | [] => ret r
  | s :: rest =>
      if is_archived s then listUpdatedSince_loop e rest r
      else let! r' := catch (listUpdatedSince_step e s r) (ret r) in
           listUpdatedSince_loop e rest r'
  end.

Definition listUpdatedSince (e : Z) : M (gmap string StoredObject) :=
  let! t := GET_issues (baseLabel cfg) (Some Tracker.Closed) (Some e) in
  listUpdatedSince_loop e t ∅.

(** The body of the [try] of [getObjectHistory]: one comment decoded. *)
Definition decode_comment (a : Tracker.comment) : exn + history_entry :=
  match JSON_parse (Tracker.comment_body a) with
  | inl x => inl x
  | inr n =>
      let entry c u := inr (HistoryEntry (Tracker.comment_created_at a) c u (Tracker.id a)) in
      if typeof_object n then
        match JS_in "_data" n with
        | inl x => inl x
        | inr true =>
            entry (if truthy (get_field "type" n)
                   then default JNull (get_field "type" n)
                   else JStr "update")
                  (get_field "_data" n)
        | inr false =>
            match JS_in "type" n with
            | inl x => inl x
            | inr has_type =>
                if has_type && match get_field "type" n with
                               | Some (JStr ty) => String.eqb ty "initial_state"
                               | _ => false
                               end
                then entry (JStr "initial_state") (get_field "data" n)
                else entry (JStr "update") (Some n)
            end
        end
      else entry (JStr "update") (Some n)
  end.

Fixpoint getObjectHistory_loop (s : list Tracker.comment) (i : list history_entry)
    : list history_entry :=
  match s with
  | [] => i
  | a :: rest =>
      match decode_comment a with
      | inr h => getObjectHistory_loop rest (i ++ [h])%list
      | inl _ => getObjectHistory_loop rest i
      end
  end.

Definition getObjectHistory (e : string) : M (list history_entry) :=
  let! t := GET_issues (join_commas [baseLabel cfg; idLabel e]) None None in
  match t with
  | [] => throw (Error ("No object found with ID: " +:+ e))
  | r :: _ =>
      let! s := GET_comments (Tracker.number r) in
      ret (getObjectHistory_loop s [])
  end.

End Methods.

(** ** Runs of calls, and the states the theorems speak of *)

(** One [set] call, and a run of them on a cache. *)
Record set_call : Type := SetCall {
  at_time : Z;
  key : string;
  target : nat;
  created : Z;
  updated : Z
}.

Definition run_sets (calls : list set_call) (c : IssueCache.t) : IssueCache.t :=
  fold_left
    (fun c x => IssueCache.set (at_time x) (key x) (target x) (created x) (updated x) c)
    calls c.

(** A cache whose recency list lists its keys, each once. *)
Record cache_wf (c : IssueCache.t) : Prop := CacheWf {
  wf_nodup : NoDup (IssueCache.accessOrder c);
  wf_dom : dom (IssueCache.cache c) = list_to_set (IssueCache.accessOrder c)
}.

(** What a history entry says: its type and its data. *)
Definition summary (h : history_entry) : json * option json :=
  (type h, entry_data h).

Section Runs.

Variable toISOString : Z -> string.
Variable this : client.

Let cfg : config := client_config this.

(** The issue [createObject(e, t, r)] leaves on the tracker of [w]. *)
Definition created_issue (e : string) (t : json) (r : list string) (w : world)
    : Tracker.issue :=
  let n := S (Tracker.last_number (tracker w)) in
  {| Tracker.number := n;
     Tracker.title := "Stored Object: " +:+ e;
     Tracker.body := Some (JSONText t);
     Tracker.labels := ["gh-store"; baseLabel cfg; idLabel this e] ++ r;
     Tracker.state := Tracker.Closed;
     Tracker.created_at := clock w;
     Tracker.updated_at := clock w;
     Tracker.comments :=
       [ {| Tracker.id := S (Tracker.last_comment_id (tracker w));
            Tracker.comment_body :=
              JSONText (JObj [("_data", t);
                              ("_meta", JObj [("client_version", JStr "0.11.1");
                                              ("timestamp", JStr (toISOString (clock w)));
                                              ("update_mode", JStr "append");
                                              ("issue_number", JNum (Z.of_nat n))]);
                              ("type", JStr "initial_state")]);
            Tracker.comment_created_at := clock w;
            Tracker.reactions := [processed (config_reactions cfg);
                                  initialState (config_reactions cfg)] |} ] |}.

(** [updateObject(e, d)] called [dt] milliseconds after the last call. *)
Definition run_updates_step (e : string) (u : Z * json) : M StoredObject :=
  fun w => updateObject toISOString this e u.2 (advance u.1 w).

(** A run of [updateObject] calls on [e]; the objects they return. *)
Fixpoint run_updates (e : string) (ups : list (Z * json)) : M (list StoredObject) :=
  match ups with
  | [] => ret []
  | u :: rest =>
      let! o := run_updates_step e u in
      let! os := run_updates e rest in
      ret (o :: os)
  end.

(** The object [e] is backed by the newest issue of the tracker, numbered
    [S n]; its body holds [v], its comments decode to [hs], and the cache
    entry of [e] points at it and was touched just now. Neither the base
    label nor the ID label holds a comma, so a query that joins them with
    commas asks for these two labels. *)
Inductive backed (e : string) (n : nat) (v : json)
    (hs : list (json * option json)) (w : world) : Prop :=
| Backed (backing : Tracker.issue) (older : list Tracker.issue)
    (cached : IssueCache.entry)
    (backed_issues : Tracker.issues (tracker w) = backing :: older)
    (backed_number : Tracker.number backing = S n)
    (backed_base : baseLabel cfg ∈ Tracker.labels backing)
    (backed_id : idLabel this e ∈ Tracker.labels backing)
    (backed_base_plain : has_comma (baseLabel cfg) = false)
    (backed_id_plain : has_comma (idLabel this e) = false)
    (backed_body : Tracker.body backing = Some (JSONText v))
    (backed_comments : length (Tracker.comments backing) = length hs)
    (backed_history :
       summary <$> getObjectHistory_loop (Tracker.comments backing) [] = hs)
    (backed_cached : IssueCache.cache (the_cache w) !! e = Some cached)
    (backed_target : IssueCache.issueNumber cached = S n)
    (backed_touched : IssueCache.lastAccessed cached = clock w).

(** What every object of a listing has, given the issues [src] it was read
    from and the time bound [lo] ([None] for [listAll]). *)
Definition listed (src : list Tracker.issue) (lo : option Z)
    (res : gmap string StoredObject) : Prop :=
  ∀ id o, res !! id = Some o →
    objectId (meta o) = id ∧ label (meta o) = id
    ∧ ∃ s, s ∈ src
           ∧ uidPrefix cfg +:+ id ∈ Tracker.labels s
           ∧ is_archived s = false
           ∧ issueNumber (meta o) = Tracker.number s
           ∧ updatedAt (meta o) = Tracker.updated_at s
           ∧ JSON_parse_body (Tracker.body s) = inr (data o)
           ∧ match lo with Some e => e < Tracker.updated_at s | None => True end.

End Runs.

(** What an outcome says about the value returned, when there is one. *)
Definition on_result {A B : Type} (f : A -> B) (r : exn + A) : exn + B :=
  match r with
  | inr a => inr (f a)
  | inl x => inl x
  end.

(** ** The worlds of the examples *)

(** The rendering of time 0, the time the examples run at. *)
Definition epoch_toISOString (t : Z) : string := "1970-01-01T00:00:00.000Z".

Definition default_config : config :=
  Config "stored-object" "UID:" (Reactions "+1" "rocket").

Definition demo_client : client :=
  Client (TokenString "ghp_example") "owner/papers" default_config.

(** A new client on an empty tracker that pages by 30. *)
Definition fresh_world : world :=
  World (IssueCache.constructor (IssueCache.Options None None)) (Tracker.empty 30) 0.

Definition paper_X : json := JObj [("title", JStr "X")].
Definition paper_up : json := JObj [("title", JStr "X"); ("rating", JStr "up")].
Definition paper_down : json := JObj [("title", JStr "X"); ("rating", JStr "down")].


(** Issue 1 is no stored object at all; issue 2 stores [a]; the cache entry
    of [a] points at issue 1. *)
Definition stale_world : world :=
  World (IssueCache.set 0 "a" 1 0 0 (IssueCache.constructor (IssueCache.Options None None)))
        (Tracker.Tracker
           [Tracker.Issue 2 "Stored Object: a" (Some (JSONText (JObj [("owner", JStr "a")])))
                          ["gh-store"; "stored-object"; "UID:a"] Tracker.Closed 0 0 [];
            Tracker.Issue 1 "A bug report" (Some (OtherText "It crashes."))
                          ["bug"] Tracker.Open 0 0 []]
           2 0 30)
        0.

(** An issue whose comments are an envelope, a bare initial state, a raw
    number, the raw [null] and a remark that is no JSON. *)
Definition legacy_comments : list Tracker.comment :=
  [Tracker.Comment 1 (JSONText (JObj [("_data", JNum 1); ("_meta", JObj [])])) 10 [];
   Tracker.Comment 2 (JSONText (JObj [("type", JStr "initial_state"); ("data", JNum 2)])) 20 [];
   Tracker.Comment 3 (JSONText (JNum 3)) 30 [];
   Tracker.Comment 4 (JSONText JNull) 40 [];
   Tracker.Comment 5 (OtherText "Looks good to me.") 50 []].

Definition legacy_world : world :=
  World (IssueCache.constructor (IssueCache.Options None None))
        (Tracker.Tracker
           [Tracker.Issue 1 "Stored Object: old" (Some (JSONText (JNum 3)))
                          ["gh-store"; "stored-object"; "UID:old"] Tracker.Closed 0 50
                          legacy_comments]
           1 5 30)
        60.

(** Two closed objects, one updated at time 100 and one at time 101. *)
Definition boundary_world : world :=
  World (IssueCache.constructor (IssueCache.Options None None))
        (Tracker.Tracker
           [Tracker.Issue 2 "Stored Object: late" (Some (JSONText (JNum 2)))
                          ["gh-store"; "stored-object"; "UID:late"] Tracker.Closed 0 101 [];
            Tracker.Issue 1 "Stored Object: edge" (Some (JSONText (JNum 1)))
                          ["gh-store"; "stored-object"; "UID:edge"] Tracker.Closed 0 100 []]
           2 0 30)
        200.

(** One closed issue with the labels [UID:a] and [b], and none for the
    ID [a,b]. *)
Definition split_label_world : world :=
  World (IssueCache.constructor (IssueCache.Options None None))
        (Tracker.Tracker
           [Tracker.Issue 1 "Stored Object: a" (Some (JSONText (JNum 1)))
                          ["gh-store"; "stored-object"; "UID:a"; "b"] Tracker.Closed 0 0 []]
           1 0 30)
        10.

(** A client configured with the empty [uidPrefix]. *)
Definition unprefixed_client : client :=
  Client (TokenString "ghp_example") "owner/papers"
         (Config "stored-object" "" (Reactions "+1" "rocket")).

(** ** Runs of cache calls *)

(** One call on the cache. *)
Inductive cache_op : Type :=
| OpGet (now : Z) (e : string)
| OpSet (now : Z) (e : string) (n : nat) (r_createdAt r_updatedAt : Z)
| OpRemove (e : string)
| OpClear.

Definition run_op (c : IssueCache.t) (o : cache_op) : IssueCache.t :=
  match o with
  | OpGet now e => (IssueCache.get now e c).2
  | OpSet now e n cr up => IssueCache.set now e n cr up c
  | OpRemove e => IssueCache.remove e c
  | OpClear => IssueCache.clear c
  end.

Definition run_ops (ops : list cache_op) (c : IssueCache.t) : IssueCache.t :=
  fold_left run_op ops c.

(** The ID a [set] call brings in is not the empty string. *)
Definition sets_nonempty (o : cache_op) : Prop :=
  match o with
  | OpSet _ e _ _ _ => e ≠ ""
  | _ => True
  end.

(** The recency list lists the keys, none of them empty, and is no longer
    than [maxSize]. *)
Record bounded (c : IssueCache.t) : Prop := Bounded {
  bounded_wf : cache_wf c;
  bounded_nonempty : "" ∉ IssueCache.accessOrder c;
  bounded_length : Z.of_nat (length (IssueCache.accessOrder c)) ≤ IssueCache.maxSize c
}.

(** The entry of [e] is the one set at [now], and fewer than [j] IDs are
    ahead of it in the recency list. *)
Record ahead (e : string) (v : IssueCache.entry) (j : nat) (c : IssueCache.t) : Prop := Ahead {
  ahead_wf : cache_wf c;
  ahead_entry : IssueCache.cache c !! e = Some v;
  ahead_split : ∃ l1 l2, IssueCache.accessOrder c = l1 ++ e :: l2 ∧ (length l1 ≤ j)%nat
}.

(** ** Payloads and labels *)

(** [ty || "update"] for the type a payload was made with. *)
Definition payload_type (ty : option string) : string :=
  match ty with
  | Some t => if truthy_string t then t else "update"
  | None => "update"
  end.

(** A label the search for the UID label passes over. *)
Definition passed_over (this : client) (l : string) : Prop :=
  l = baseLabel (client_config this) ∨ String.prefix (uidPrefix (client_config this)) l = false.

(** ** Source integrations ([BaseSourceIntegration], [SourceIntegrationManager]) *)

Module Sources.

(** A source integration, as far as identifiers go: the methods below read
    [this.id] only, and no integration of the bundle overrides them. *)
Record source : Type := Source {
  id : string;
  name : string;
  contentScriptMatches : list string
}.

(** [s.substring(n)] *)
Definition substring_from (n : nat) (s : string) : string :=
  String.substring n (String.length s - n) s.

Definition formatPaperId (this : source) (paperId : string) : string :=
  id this +:+ "." +:+ paperId.

(** [null] is [None]. *)
Definition parsePaperId (this : source) (identifier : string) : option string :=
  let prefix := id this +:+ "." in
  if String.prefix prefix identifier
  then Some (substring_from (String.length prefix) identifier)
  else
    let legacyPrefix := id this +:+ ":" in
    if String.prefix legacyPrefix identifier
    then Some (substring_from (String.length legacyPrefix) identifier)
    else None.

Definition formatObjectId (this : source) (type paperId : string) : string :=
  type +:+ ":" +:+ formatPaperId this paperId.

Definition arxivIntegration : source :=
  Source "arxiv" "arXiv.org" ["*://*.arxiv.org/*"].

Definition openReviewIntegration : source :=
  Source "openreview" "OpenReview" ["*://*.openreview.net/*"].

Definition sourceIntegrations : list source :=
  [arxivIntegration; openReviewIntegration].

End Sources.

Module SourceIntegrationManager.

(** [this.sources], a [Map] from source ID to integration. *)
Abbreviation t := (gmap string Sources.source).

Definition constructor : t := ∅.

Definition registerSource (s : Sources.source) (this : t) : t :=
  <[Sources.id s := s]> this.

Definition getSourceById (sourceId : string) (this : t) : option Sources.source :=
  this !! sourceId.

Definition formatPaperId (sourceId paperId : string) (this : t) : string :=
  match this !! sourceId with
  | Some s => Sources.formatPaperId s paperId
  | None => sourceId +:+ "." +:+ paperId
  end.

Definition formatObjectId (type sourceId paperId : string) (this : t) : string :=
  match this !! sourceId with
  | Some s => Sources.formatObjectId s type paperId
  | None => type +:+ ":" +:+ sourceId +:+ "." +:+ paperId
  end.

(** [initializeSources] of the background script *)
Definition initializeSources : t :=
  fold_left (fun m s => registerSource s m) Sources.sourceIntegrations constructor.

End SourceIntegrationManager.

(** Every integration is filed under its own ID. *)
Definition keyed (m : SourceIntegrationManager.t) : Prop :=
  ∀ k s, m !! k = Some s → Sources.id s = k.

(** ** Paper IDs from URLs ([generatePaperIdFromUrl]) *)

(** [ToInt32]: the value as a signed 32-bit integer. *)
Definition toInt32 (z : Z) : Z := (z + 2 ^ 31) mod 2 ^ 32 - 2 ^ 31.

(** One turn of the loop: [hash = ((hash << 5) - hash) + char] and then
    [hash = hash & hash]. *)
Definition hash_step (hash char : Z) : Z :=
  toInt32 (toInt32 (toInt32 hash * 2 ^ 5) - hash + char).

(** The loop over the UTF-16 code units [url.charCodeAt(i)]. *)
Fixpoint hash_loop (url : list Z) (hash : Z) : Z :=
  match url with
  | [] => hash
  | char :: rest => hash_loop rest (hash_step hash char)
  end.

Definition hex_digit (d : Z) : Ascii.ascii :=
  nth (Z.to_nat d) (String.list_ascii_of_string "0123456789ABCDEF")
      (Ascii.Ascii false false false false true true false false).

Fixpoint upper_hex_fuel (fuel : nat) (n : Z) : string :=
  match fuel with
  | O => ""
  | S f =>
      if n <? 16 then String (hex_digit n) ""
      else upper_hex_fuel f (n / 16) +:+ String (hex_digit (n mod 16)) ""
  end.

(** [n.toString(16).toUpperCase()] for a natural number [n]. *)
Definition upper_hex (n : Z) : string :=
  upper_hex_fuel (S (Z.to_nat (Z.log2 n))) n.

Definition generatePaperIdFromUrl (url : list Z) : string :=
  let hash := hash_loop url 0 in
  let positiveHash := upper_hex (Z.abs hash) in
  String.substring 0 8 positiveHash.

(** The hash of Java's [String.hashCode], before wrapping. *)
Definition polynomial (url : list Z) (h : Z) : Z :=
  fold_left (fun h c => 31 * h + c) url h.

Definition is_upper_hex (c : Ascii.ascii) : Prop :=
  c ∈ String.list_ascii_of_string "0123456789ABCDEF".

Fixpoint string_forall (P : Ascii.ascii → Prop) (s : string) : Prop :=
  match s with
  | EmptyString => True
  | String c rest => P c ∧ string_forall P rest
  end.

(** ** The paper manager ([PaperManager]) *)

(** [hay.includes(needle)] *)
Fixpoint includes (needle hay : string) : bool :=
  String.prefix needle hay
  || match hay with
     | EmptyString => false
     | String _ rest => includes needle rest
     end.

(** [isInteractionLog(data)] *)
Definition isInteractionLog (data : json) : bool :=
  match data with
  | JObj fs =>
      match field "sourceId" fs, field "paperId" fs, field "interactions" fs with
      | Some (JStr _), Some (JStr _), Some (JArr _) => true
      | _, _, _ => false
      end
  | _ => false
  end.

(** [{...o, k: v}]: the property keeps its place when [o] has it, and comes
    last when not. *)
Fixpoint set_field (k : string) (v : json) (fs : list (string * json))
    : list (string * json) :=
  match fs with
  | [] => [(k, v)]
  | (k', v') :: rest =>
      if String.eqb k k' then (k, v) :: rest else (k', v') :: set_field k v rest
  end.

(** A [PaperMetadata] value: the two identifiers and the other properties. *)
Record PaperMetadata : Type := Paper {
  sourceId : string;
  paperId : string;
  properties : list (string * json)
}.

Definition paper_fields (p : PaperMetadata) : list (string * json) :=
  ("sourceId", JStr (sourceId p)) :: ("paperId", JStr (paperId p)) :: properties p.

Module PaperManager.

Record t : Type := Manager {
  client_of : client;
  sourceManager : gmap string Sources.source
}.

Section Methods.

Variable toISOString : Z -> string.
(** [error.message] of the errors the engine makes: its wording of a
    SyntaxError, which quotes the text that did not parse, and of a
    TypeError. All errors here are instances of [Error]. *)
Variable platform_message : exn -> string.
Variable this : t.

Definition message (x : exn) : string :=
  match x with
  | Error msg => msg
  | ApiError status => "GitHub API error: " +:+ pretty status
  | _ => platform_message x
  end.

(** [error instanceof Error && error.message.includes('No object found')] *)
Definition not_found (x : exn) : bool := includes "No object found" (message x).

(** [try { m } catch (error) { h(error) }] *)
Definition catch_with {A} (m : M A) (h : exn -> M A) : M A :=
  fun w => match m w with
           | (inl x, w') => h x w'
           | r => r
           end.

Definition getPaper (sourceId paperId : string) : M (option json) :=
  let objectId :=
    SourceIntegrationManager.formatObjectId "paper" sourceId paperId (sourceManager this) in
  catch_with
    (let! obj := getObject (client_of this) objectId in
     ret (Some (data obj)))
    (fun error => if not_found error then ret None else throw error).

Definition defaultPaperData (paperData : PaperMetadata) (now : Z) : json :=
  let fs := paper_fields paperData in
  JObj (set_field "rating"
          (if truthy (field "rating" fs) then default JNull (field "rating" fs)
           else JStr "novote")
          (set_field "timestamp" (JStr (toISOString now)) fs)).

Definition getOrCreatePaper (paperData : PaperMetadata) : M json :=
  let objectId :=
    SourceIntegrationManager.formatObjectId "paper" (sourceId paperData)
      (paperId paperData) (sourceManager this) in
  catch_with
    (let! obj := getObject (client_of this) objectId in
     ret (data obj))
    (fun error =>
       if not_found error then
         let! now := Date_now in
         let d := defaultPaperData paperData now in
         let! newobj := createObject toISOString (client_of this) objectId d [] in
         let! _ := PATCH_issue (issueNumber (meta newobj)) Tracker.Open in
         ret d
       else throw error).

Definition newLog (sourceId paperId : string) : json :=
  JObj [("sourceId", JStr sourceId); ("paperId", JStr paperId); ("interactions", JArr [])].

Definition getOrCreateInteractionLog (sourceId paperId : string) : M json :=
  let objectId :=
    SourceIntegrationManager.formatObjectId "interactions" sourceId paperId
      (sourceManager this) in
  catch_with
    (let! obj := getObject (client_of this) objectId in
     if isInteractionLog (data obj) then ret (data obj)
     else throw (Error "Invalid interaction log format"))
    (fun error =>
       if not_found error then
         do! createObject toISOString (client_of this) objectId (newLog sourceId paperId) [] in
         ret (newLog sourceId paperId)
       else throw error).

(** [log.interactions.push(interaction)] on a value that passed
    [isInteractionLog]; on another value the call throws a TypeError. *)
Definition push_interaction (interaction : json) (log : json) : exn + json :=
  match log with
  | JObj fs =>
      match field "interactions" fs with
      | Some (JArr items) =>
          inr (JObj (set_field "interactions" (JArr (items ++ [interaction])) fs))
      | _ => inl TypeError
      end
  | _ => inl TypeError
  end.

Definition addInteraction (sourceId paperId : string) (interaction : json) : M unit :=
  let! log := getOrCreateInteractionLog sourceId paperId in
  let! log' := lift (push_interaction interaction log) in
  let objectId :=
    SourceIntegrationManager.formatObjectId "interactions" sourceId paperId
      (sourceManager this) in
  let! _ := updateObject toISOString (client_of this) objectId log' in
  ret tt.

End Methods.

End PaperManager.

(** ** The session service ([SessionService]) *)

Module SessionService.

(** [this.activeSession]; the two dates as milliseconds. *)
Record session : Type := Session {
  sourceId : string;
  paperId : string;
  startTime : Z;
  heartbeatCount : Z;
  lastHeartbeatTime : Z
}.

(** The [sessionData] that [endSession] builds. *)
Record sessionData : Type := SessionData {
  session_id : string;
  source_id : string;
  paper_id : string;
  start_time : string;
  end_time : string;
  heartbeat_count : Z;
  duration_seconds : Z;
  idle_seconds : Z;
  total_elapsed_seconds : Z
}.

(** The service; [paperManager] is whether one was given to the constructor
    ([new SessionService(null)] has none). *)
Record t : Type := Service {
  paperManager : bool;
  activeSession : option session;
  timeoutId : option nat;
  paperMetadata : gmap string json
}.

(** The arguments of a [paperManager.logReadingSession] call. *)
Record log_call : Type := LogReadingSession {
  log_sourceId : string;
  log_paperId : string;
  log_session : sessionData;
  log_metadata : option json
}.

(** What the service worker gives the service: the clock, the pending timers
    (handle and due time, every one of them a [checkTimeout] callback), the
    last handle given out, and the [logReadingSession] calls started (they
    run on their own, [endSession] does not wait for them). A handler reads
    one clock value throughout. *)
Record platform : Type := Platform {
  now : Z;
  timers : list (nat * Z);
  last_timer : nat;
  logged : list log_call
}.

Definition HEARTBEAT_TIMEOUT : Z := 15000.

Definition constructor (paperManager : bool) : t :=
  Service paperManager None None ∅.

(** The worker at [t0], before any call. *)
Definition boot (t0 : Z) : platform := Platform t0 [] 0 [].

(** [clearTimeout(id)] *)
Definition clearTimeout (id : nat) (p : platform) : platform :=
  Platform (now p) (List.filter (fun x => negb (Nat.eqb x.1 id)) (timers p))
           (last_timer p) (logged p).

(** [self.setTimeout(callback, delay)]: a new handle, never [null]. *)
Definition setTimeout (delay : Z) (p : platform) : nat * platform :=
  (S (last_timer p),
   Platform (now p) (timers p ++ [(S (last_timer p), now p + delay)])
            (S (last_timer p)) (logged p)).

(** [Math.round(ms / 1000)]: halves go up. *)
Definition round_seconds (ms : Z) : Z := (ms + 500) / 1000.

(** [`${sourceId}:${paperId}`] *)
Definition metadata_key (sourceId paperId : string) : string :=
  sourceId +:+ ":" +:+ paperId.

Definition falsy_arg (s : option string) : bool :=
  match s with
  | Some s => negb (truthy_string s)
  | None => true
  end.

(** [getPaperMetadata(sourceId, paperId)]; an argument left out is [None]. *)
Definition getPaperMetadata (sourceId paperId : option string) (this : t)
    : option json :=
  if falsy_arg sourceId || falsy_arg paperId then
    match activeSession this with
    | None => None
    | Some s =>
        paperMetadata this !! metadata_key (SessionService.sourceId s) (SessionService.paperId s)
    end
  else
    paperMetadata this !! metadata_key (default "" sourceId) (default "" paperId).

(** [storePaperMetadata(metadata)] for a metadata object with these two
    identifiers. *)
Definition storePaperMetadata (sourceId paperId : string) (metadata : json)
    (this : t) : t :=
  Service (paperManager this) (activeSession this) (timeoutId this)
          (<[metadata_key sourceId paperId := metadata]> (paperMetadata this)).

Definition hasActiveSession (this : t) : bool :=
  match activeSession this with Some _ => true | None => false end.

Definition getCurrentSession (this : t) : option (string * string) :=
  match activeSession this with
  | Some s => Some (sourceId s, paperId s)
  | None => None
  end.

Definition getTimeSinceLastHeartbeat (st : t * platform) : option Z :=
  match activeSession st.1 with
  | Some s => Some (now st.2 - lastHeartbeatTime s)
  | None => None
  end.

Definition scheduleTimeoutCheck (st : t * platform) : t * platform :=
  let (this, p) := st in
  let p1 := match timeoutId this with
            | Some id => clearTimeout id p
            | None => p
            end in
  let (id, p2) := setTimeout HEARTBEAT_TIMEOUT p1 in
  (Service (paperManager this) (activeSession this) (Some id) (paperMetadata this), p2).

Section Methods.

Variable toISOString : Z -> string.
(** [String(n)] of a whole number, and what
    [Math.random().toString(36).substring(2, 9)] gave at each call ([rnd]). *)
Variable toString : Z -> string.

Definition endSession (rnd : string) (st : t * platform)
    : option sessionData * (t * platform) :=
  let (this, p) := st in
  match activeSession this with
  | None => (None, st)
  | Some s =>
      let p1 := match timeoutId this with
                | Some id => clearTimeout id p
                | None => p
                end in
      let endTime := now p in
      let duration := heartbeatCount s * 5 in
      let totalElapsed := endTime - startTime s in
      let totalElapsedSeconds := round_seconds totalElapsed in
      let idleSeconds := Z.max 0 (totalElapsedSeconds - duration) in
      let sessionData :=
        {| session_id := "session_" +:+ toString (now p) +:+ "_" +:+ rnd;
           source_id := sourceId s;
           paper_id := paperId s;
           start_time := toISOString (startTime s);
           end_time := toISOString endTime;
           heartbeat_count := heartbeatCount s;
           duration_seconds := duration;
           idle_seconds := idleSeconds;
           total_elapsed_seconds := totalElapsedSeconds |} in
      let p2 :=
        if paperManager this && (0 <? heartbeatCount s) then
          Platform (now p1) (timers p1) (last_timer p1)
                   (logged p1 ++
                    [LogReadingSession (sourceId s) (paperId s) sessionData
                       (getPaperMetadata (Some (sourceId s)) (Some (paperId s)) this)])
        else p1 in
      (Some sessionData,
       (Service (paperManager this) None None (paperMetadata this), p2))
  end.

Definition startSession (sourceId paperId : string) (metadata : option json)
    (rnd : string) (st : t * platform) : t * platform :=
  let (this, p) := (endSession rnd st).2 in
  let s := Session sourceId paperId (now p) 0 (now p) in
  let store :=
    if truthy metadata then
      <[metadata_key sourceId paperId := default JNull metadata]> (paperMetadata this)
    else paperMetadata this in
  scheduleTimeoutCheck (Service (paperManager this) (Some s) (timeoutId this) store, p).

Definition recordHeartbeat (st : t * platform) : bool * (t * platform) :=
  let (this, p) := st in
  match activeSession this with
  | None => (false, st)
  | Some s =>
      let s' := Session (sourceId s) (paperId s) (startTime s)
                        (heartbeatCount s + 1) (now p) in
      (true,
       scheduleTimeoutCheck
         (Service (paperManager this) (Some s') (timeoutId this) (paperMetadata this), p))
  end.

Definition checkTimeout (rnd : string) (st : t * platform) : t * platform :=
  let (this, p) := st in
  match activeSession this with
  | None => st
  | Some s =>
      if HEARTBEAT_TIMEOUT <? now p - lastHeartbeatTime s
      then (endSession rnd st).2
      else scheduleTimeoutCheck st
  end.

(** What can happen to the service: its calls, the clock moving on, and a
    pending timer that is due running its callback (which takes it off the
    pending ones). *)
Inductive event : Type :=
| StartSession (sourceId paperId : string) (metadata : option json) (rnd : string)
| RecordHeartbeat
| EndSession (rnd : string)
| StorePaperMetadata (sourceId paperId : string) (metadata : json)
| Tick (dt : N)
| Fire (id : nat) (rnd : string).

Definition due (id : nat) (p : platform) : bool :=
  existsb (fun x => Nat.eqb x.1 id && (x.2 <=? now p)) (timers p).

Definition run_event (ev : event) (st : t * platform) : t * platform :=
  match ev with
  | StartSession sourceId paperId metadata rnd =>
      startSession sourceId paperId metadata rnd st
  | RecordHeartbeat => (recordHeartbeat st).2
  | EndSession rnd => (endSession rnd st).2
  | StorePaperMetadata sourceId paperId metadata =>
      (storePaperMetadata sourceId paperId metadata st.1, st.2)
  | Tick dt =>
      (st.1, Platform (now st.2 + Z.of_N dt) (timers st.2) (last_timer st.2) (logged st.2))
  | Fire id rnd =>
      if due id st.2 then checkTimeout rnd (st.1, clearTimeout id st.2) else st
  end.

Definition run_events (evs : list event) (st : t * platform) : t * platform :=
  fold_left (fun st ev => run_event ev st) evs st.

(** The heartbeats among [evs]. *)
Definition heartbeats (evs : list event) : Z :=
  Z.of_nat (length (List.filter (fun ev => match ev with RecordHeartbeat => true | _ => false end) evs)).

(** Heartbeats, clock moves and timers only, and no timer running more than
    [HEARTBEAT_TIMEOUT] after the last heartbeat; [since] is the time since the
    last heartbeat at the start of [evs]. *)
Fixpoint in_time (since : Z) (evs : list event) : bool :=
  match evs with
  | [] => true
  | RecordHeartbeat :: rest => in_time 0 rest
  | Tick dt :: rest => in_time (since + Z.of_N dt) rest
  | Fire _ _ :: rest => (since <=? HEARTBEAT_TIMEOUT) && in_time since rest
  | StorePaperMetadata _ _ _ :: rest => in_time since rest
  | _ :: _ => false
  end.

End Methods.

(** While a session is active one timeout check is pending, the one
    [timeoutId] names, due between one and two timeouts after the last
    heartbeat; with no session nothing is pending. *)
Definition timer_pending (st : t * platform) : Prop :=
  match activeSession st.1 with
  | None => timers st.2 = [] ∧ timeoutId st.1 = None
  | Some s =>
      ∃ id due, timers st.2 = [(id, due)] ∧ timeoutId st.1 = Some id
                ∧ lastHeartbeatTime s + HEARTBEAT_TIMEOUT ≤ due
                ∧ due ≤ lastHeartbeatTime s + 2 * HEARTBEAT_TIMEOUT
                ∧ due ≤ now st.2 + HEARTBEAT_TIMEOUT
  end.

(** A stored reading session: at least one heartbeat, five seconds each. *)
Definition meaningful (c : log_call) : Prop :=
  let d := log_session c in
  0 < heartbeat_count d
  ∧ duration_seconds d = 5 * heartbeat_count d
  ∧ 0 ≤ total_elapsed_seconds d
  ∧ idle_seconds d + duration_seconds d
    = Z.max (total_elapsed_seconds d) (duration_seconds d)
  ∧ source_id d = log_sourceId c ∧ paper_id d = log_paperId c.

(** Nothing is pending but, at most, the timer [timeoutId] names. *)
Definition at_most_named (this : t) (p : platform) : Prop :=
  timers p = [] ∨ ∃ id due, timers p = [(id, due)] ∧ timeoutId this = Some id.

(** What the service keeps between calls. *)
Inductive session_inv (st : t * platform) : Prop :=
| SessionInv :
    timer_pending st →
    (∀ s, activeSession st.1 = Some s →
          0 ≤ heartbeatCount s ∧ startTime s ≤ lastHeartbeatTime s
          ∧ lastHeartbeatTime s ≤ now st.2) →
    Forall meaningful (logged st.2) →
    session_inv st.

End SessionService.

(** ** More example values *)

(** The extension's manager over the demo client. *)
Definition demo_manager : PaperManager.t :=
  PaperManager.Manager demo_client SourceIntegrationManager.initializeSources.

(** Messages of the errors the engine makes. *)
Definition engine_message (x : exn) : string :=
  match x with
  | SyntaxError source => "Unexpected token in JSON: " +:+ source
  | _ => "Cannot use 'in' operator to search for '_data' in null"
  end.

Definition paper_2301 : PaperMetadata :=
  Paper "arxiv" "2301.00001" [("title", JStr "X")].

Definition epoch_toString (n : Z) : string := "0".

Arguments IssueCache.set : simpl never.

(** * Theorems *)

(** ** The cache *)

Module CacheFacts.
Import IssueCache.

Lemma eqb_false (x y : string) : x ≠ y → String.eqb x y = false.
Proof. intros H. destruct (String.eqb_spec x y); congruence. Qed.

Lemma remove_first_notin (e : string) (l : list string) :
  e ∉ l → remove_first e l = l.
Proof.
  induction l as [|x l IH]; simpl; [done|].
  intros [Hne Hl]%not_elem_of_cons.
  rewrite eqb_false; [|done]. by rewrite IH.
Qed.

Lemma remove_first_snoc (e : string) (l : list string) :
  e ∉ l → remove_first e (l ++ [e]) = l.
Proof.
  induction l as [|x l IH]; simpl.
  - by rewrite String.eqb_refl.
  - intros [Hne Hl]%not_elem_of_cons.
    rewrite eqb_false; [|done]. by rewrite IH.
Qed.

Lemma remove_first_elem (e x : string) (l : list string) :
  x ∈ remove_first e l → x ∈ l.
Proof.
  induction l as [|y l IH]; simpl; [done|].
  destruct (String.eqb_spec y e); set_solver.
Qed.


Lemma wf_size c : cache_wf c → size (cache c) = length (accessOrder c).
Proof.
  intros [Hnd Hdom]. rewrite <- size_dom, Hdom. by apply size_list_to_set.
Qed.

Lemma wf_lookup c e : cache_wf c → is_Some (cache c !! e) ↔ e ∈ accessOrder c.
Proof. intros [_ Hdom]. rewrite <- elem_of_dom, Hdom. set_solver. Qed.

Lemma wf_constructor o : cache_wf (constructor o).
Proof. split; simpl; [constructor | set_solver]. Qed.

(** [set] of a new key when there is room. *)
Lemma set_room now e n cr up c :
  cache_wf c → e ∉ accessOrder c → Z.of_nat (length (accessOrder c)) < maxSize c →
  accessOrder (set now e n cr up c) = e :: accessOrder c
  ∧ cache (set now e n cr up c) = <[e := Entry n now cr up]> (cache c)
  ∧ maxSize (set now e n cr up c) = maxSize c
  ∧ ttl (set now e n cr up c) = ttl c.
Proof.
  intros Hwf He Hlt. unfold set.
  rewrite (wf_size _ Hwf).
  destruct (Z.leb_spec (maxSize c) (Z.of_nat (length (accessOrder c)))); [lia|].
  simpl. by rewrite remove_first_notin.
Qed.

(** [set] of a new key in a full cache: the tail of the recency list goes. *)
Lemma set_full now e n cr up c l s :
  cache_wf c → accessOrder c = l ++ [s] → s ≠ "" → e ∉ accessOrder c →
  maxSize c ≤ Z.of_nat (length (accessOrder c)) →
  accessOrder (set now e n cr up c) = e :: l
  ∧ cache (set now e n cr up c) = <[e := Entry n now cr up]> (delete s (cache c))
  ∧ maxSize (set now e n cr up c) = maxSize c
  ∧ ttl (set now e n cr up c) = ttl c.
Proof.
  intros Hwf Hao Hs He Hle. unfold set.
  rewrite (wf_size _ Hwf).
  destruct (Z.leb_spec (maxSize c) (Z.of_nat (length (accessOrder c)))); [|lia].
  assert (cache c !! e = None) as Hnone.
  { apply eq_None_not_Some. by rewrite (wf_lookup _ _ Hwf). }
  rewrite Hnone. rewrite bool_decide_eq_false_2 by (by intros [? ?]).
  rewrite Hao, last_snoc. simpl.
  unfold truthy_string. rewrite eqb_false by done. simpl.
  rewrite Hao.
  assert (s ∉ l) as Hsl.
  { destruct Hwf as [Hnd _]. rewrite Hao in Hnd.
    apply NoDup_app in Hnd as (_ & Hd & _). intros Hin. apply (Hd _ Hin). set_solver. }
  rewrite remove_first_snoc by done.
  rewrite remove_first_notin; [done|].
  rewrite Hao in He. set_solver.
Qed.




Lemma wf_insert_cons c c' e v :
  cache_wf c → e ∉ accessOrder c →
  accessOrder c' = e :: accessOrder c → cache c' = <[e := v]> (cache c) → cache_wf c'.
Proof.
  intros [Hnd Hdom] He Hao Hc. split.
  - rewrite Hao. by constructor.
  - rewrite Hao, Hc, dom_insert_L, Hdom. set_solver.
Qed.

Lemma wf_evict_cons c c' e v l s :
  cache_wf c → accessOrder c = l ++ [s] → e ∉ accessOrder c →
  accessOrder c' = e :: l → cache c' = <[e := v]> (delete s (cache c)) → cache_wf c'.
Proof.
  intros [Hnd Hdom] Hl He Hao Hc. rewrite Hl in Hnd, Hdom, He.
  apply NoDup_app in Hnd as (Hndl & Hd & _).
  assert (s ∉ l) by (intros Hin; apply (Hd _ Hin); set_solver).
  split.
  - rewrite Hao. constructor; [set_solver|done].
  - rewrite Hao, Hc, dom_insert_L, dom_delete_L, Hdom.
    rewrite list_to_set_app_L. set_solver.
Qed.

Lemma run_sets_order (calls : list set_call) (c0 : t) :
  accessOrder c0 = [] → cache c0 = ∅ → 1 ≤ maxSize c0 →
  NoDup (key <$> calls) → "" ∉ key <$> calls →
  let c := run_sets calls c0 in
  cache_wf c ∧ maxSize c = maxSize c0 ∧ ttl c = ttl c0
  ∧ accessOrder c
    = reverse (drop (length calls - Z.to_nat (maxSize c0)) (key <$> calls)).
Proof.
  intros Hao0 Hc0 HM. induction calls as [|x calls IH] using rev_ind; intros Hnd Hne.
  - simpl. repeat split; try done.
    + rewrite Hao0. constructor.
    + rewrite Hao0, Hc0. set_solver.
  - rewrite fmap_app in Hnd, Hne. simpl in Hnd, Hne.
    apply NoDup_app in Hnd as (Hnd & Hx & _).
    destruct IH as (Hwf & HMax & Httl & Horder); [done|set_solver|].
    unfold run_sets in *. cbv zeta in *. rewrite fold_left_app. cbn [fold_left].
    set (c := fold_left _ calls c0) in *.
    assert (key x ∉ accessOrder c) as Hfresh.
    { rewrite Horder, elem_of_reverse. intros Hin.
      apply (Hx (key x)); [exact (subseteq_drop _ _ _ Hin)|set_solver]. }
    assert (key x ≠ "") as Hkx by set_solver.
    rewrite fmap_app, length_app. cbn [length fmap list_fmap].
    destruct (decide (length calls < Z.to_nat (maxSize c0))%nat) as [Hlt|Hge].
    + destruct (set_room (at_time x) (key x) (target x) (created x) (updated x) c)
        as (Hao & Hc & Hm & Ht); [done|done| |].
      { rewrite Horder, length_reverse, length_drop, length_fmap. lia. }
      split; [by eapply wf_insert_cons|].
      rewrite Hm, Ht, Hao, Horder. repeat split; try done.
      replace (length calls - Z.to_nat (maxSize c0))%nat with 0%nat by lia.
      replace (length calls + 1 - Z.to_nat (maxSize c0))%nat with 0%nat by lia.
      simpl. by rewrite !drop_0, reverse_snoc.
    + set (k := (length calls - Z.to_nat (maxSize c0))%nat) in *.
      assert (k < length (key <$> calls))%nat as Hk by (rewrite length_fmap; lia).
      destruct (lookup_lt_is_Some_2 _ _ Hk) as [s Hs].
      pose proof (drop_S _ _ _ Hs) as Hdrop.
      assert (accessOrder c = reverse (drop (S k) (key <$> calls)) ++ [s]) as Hsplit.
      { by rewrite Horder, Hdrop, reverse_cons. }
      assert (s ≠ "") as Hsne.
      { intros ->. apply Hne. apply elem_of_app. left. by eapply list_elem_of_lookup_2. }
      destruct (set_full (at_time x) (key x) (target x) (created x) (updated x) c _ _
                  Hwf Hsplit Hsne Hfresh) as (Hao & Hc & Hm & Ht).
      { rewrite Horder, length_reverse, length_drop, length_fmap. lia. }
      split; [by eapply wf_evict_cons|].
      rewrite Hm, Ht, Hao. repeat split; try done.
      replace (length calls + 1 - Z.to_nat (maxSize c0))%nat with (S k) by lia.
      rewrite drop_app_le by lia. by rewrite reverse_snoc.
Qed.


(** C5, as amended: for every [maxSize] of at least 1 and every [k], [set]
    called on [maxSize + k] distinct non-empty IDs from an empty cache leaves
    exactly [maxSize] entries; the ones evicted are exactly the [k] least
    recently accessed (the first [k] set), the recency list holds the others,
    most recent first, and at no point of the run does the size exceed
    [maxSize]. *)
Theorem set_bound_evicts_least_recent (M T : Z) (k : nat) (calls : list set_call) :
  1 ≤ M → NoDup (key <$> calls) → "" ∉ key <$> calls →
  length calls = (Z.to_nat M + k)%nat →
  let c := run_sets calls (Cache ∅ M T []) in
  size (cache c) = Z.to_nat M
  ∧ (∀ e, is_Some (cache c !! e) ↔ e ∈ drop k (key <$> calls))
  ∧ (∀ e, e ∈ take k (key <$> calls) → cache c !! e = None)
  ∧ accessOrder c = reverse (drop k (key <$> calls))
  ∧ (∀ n, Z.of_nat (size (cache (run_sets (take n calls) (Cache ∅ M T [])))) ≤ M).
Proof.
  intros HM Hnd Hne Hlen c.
  destruct (run_sets_order calls (Cache ∅ M T [])) as (Hwf & _ & _ & Hao); try done.
  fold c in Hwf, Hao. simpl in Hao.
  replace (length calls - Z.to_nat M)%nat with k in Hao by lia.
  assert (∀ e, is_Some (cache c !! e) ↔ e ∈ drop k (key <$> calls)) as Hkeys.
  { intros e. rewrite (wf_lookup _ _ Hwf), Hao. apply elem_of_reverse. }
  repeat split.
  - rewrite (wf_size _ Hwf), Hao, length_reverse, length_drop, length_fmap. lia.
  - apply Hkeys.
  - apply Hkeys.
  - intros e Hin. apply eq_None_not_Some. rewrite Hkeys. intros Hin'.
    rewrite <- (take_drop k (key <$> calls)) in Hnd.
    apply NoDup_app in Hnd as (_ & Hd & _). by apply (Hd e).
  - done.
  - intros n.
    destruct (run_sets_order (take n calls) (Cache ∅ M T [])) as (Hwf' & _ & _ & Hao');
      try done.
    + rewrite fmap_take. rewrite <- (take_drop n (key <$> calls)) in Hnd.
      by apply NoDup_app in Hnd as (? & _ & _).
    + rewrite fmap_take. intros Hin. apply Hne. by eapply subseteq_take.
    + rewrite (wf_size _ Hwf'), Hao', length_reverse, length_drop, length_fmap.
      simpl. lia.
Qed.

Lemma set_bound_evicts_least_recent_witness :
  let calls := [SetCall 0 "a" 1 0 0; SetCall 1 "b" 2 0 0; SetCall 2 "c" 3 0 0] in
  let c := run_sets calls (Cache ∅ 2 3600000 []) in
  size (cache c) = 2%nat
  ∧ (∀ e, is_Some (cache c !! e) ↔ e ∈ ["b"; "c"])
  ∧ (∀ e, e ∈ ["a"] → cache c !! e = None)
  ∧ accessOrder c = ["c"; "b"]
  ∧ (∀ n, Z.of_nat (size (cache (run_sets (take n calls) (Cache ∅ 2 3600000 [])))) ≤ 2).
Proof.
  apply (set_bound_evicts_least_recent 2 3600000 1
           [SetCall 0 "a" 1 0 0; SetCall 1 "b" 2 0 0; SetCall 2 "c" 3 0 0]).
  - lia.
  - vm_compute. repeat constructor; set_solver.
  - vm_compute. set_solver.
  - reflexivity.
Defined.

(** Against C5 as stated: the eviction is guarded by the truthiness of the tail
    of the recency list, so the empty ID at the tail is never evicted and the
    cache grows past [maxSize]; and a cache with [maxSize] 0 takes an entry in. *)
Lemma set_bound_counterexample :
  (let c := run_sets [SetCall 0 "" 1 0 0; SetCall 1 "a" 2 0 0]
                     (constructor (Options (Some 1) None)) in
   maxSize c = 1 ∧ size (cache c) = 2%nat ∧ accessOrder c = ["a"; ""])
  ∧ (let c := run_sets [SetCall 0 "a" 1 0 0] (constructor (Options (Some 0) None)) in
     maxSize c = 0 ∧ size (cache c) = 1%nat).
Proof. vm_compute. done. Qed.

End CacheFacts.

(** ** The store client *)

(** ** The label query *)

Lemma labels_param_single (l : string) :
  has_comma l = false → Tracker.labels_param l = [l].
Proof.
  induction l as [|c l IH]; [done|]. cbn [has_comma Tracker.labels_param].
  intros [Hc Hl]%orb_false_iff. rewrite Hc. by rewrite (IH Hl).
Qed.

Lemma labels_param_cons (l s : string) :
  has_comma l = false →
  Tracker.labels_param (l +:+ "," +:+ s) = l :: Tracker.labels_param s.
Proof.
  induction l as [|c l IH].
  - intros _. reflexivity.
  - cbn [has_comma]. intros [Hc Hl]%orb_false_iff.
    change (String c l +:+ "," +:+ s) with (String c (l +:+ "," +:+ s)).
    cbn [Tracker.labels_param]. rewrite Hc. by rewrite (IH Hl).
Qed.

(** Labels without a comma come back from the joined parameter as sent. *)
Lemma labels_param_join (ls : list string) :
  ls ≠ [] → Forall (fun l => has_comma l = false) ls →
  Tracker.labels_param (join_commas ls) = ls.
Proof.
  intros Hne Hls. induction Hls as [|l ls Hl Hls IH]; [done|].
  destruct ls as [|l' ls]; [by apply labels_param_single|].
  change (join_commas (l :: l' :: ls)) with (l +:+ "," +:+ join_commas (l' :: ls)).
  rewrite labels_param_cons by done. by rewrite IH.
Qed.

Lemma labels_param_nonempty (s : string) : Tracker.labels_param s ≠ [].
Proof.
  induction s as [|c s IH]; [done|]. cbn [Tracker.labels_param].
  destruct (String.eqb _ _); [done|]. by destruct (Tracker.labels_param s).
Qed.

(** The parameter is split at every comma, the ones inside a label too. *)
Lemma labels_param_app (a b : string) :
  Tracker.labels_param (a +:+ "," +:+ b)
  = Tracker.labels_param a ++ Tracker.labels_param b.
Proof.
  induction a as [|c a IH]; [reflexivity|].
  change (String c a +:+ "," +:+ b) with (String c (a +:+ "," +:+ b)).
  cbn [Tracker.labels_param]. rewrite IH.
  destruct (String.eqb _ _); [done|].
  pose proof (labels_param_nonempty a).
  by destruct (Tracker.labels_param a).
Qed.

(** A label without a comma is among the labels asked for. *)
Lemma labels_param_join_elem (ls : list string) (l : string) :
  l ∈ ls → has_comma l = false → l ∈ Tracker.labels_param (join_commas ls).
Proof.
  intros Hin Hl. induction ls as [|l' ls IH]; [by apply elem_of_nil in Hin|].
  destruct ls as [|l'' ls].
  - apply list_elem_of_singleton in Hin as ->. cbn [join_commas].
    rewrite labels_param_single by done. set_solver.
  - change (join_commas (l' :: l'' :: ls))
      with (l' +:+ "," +:+ join_commas (l'' :: ls)).
    rewrite labels_param_app. apply elem_of_app.
    apply elem_of_cons in Hin as [->|Hin].
    + left. rewrite labels_param_single by done. set_solver.
    + right. by apply IH.
Qed.

Lemma has_comma_append (a b : string) :
  has_comma (a +:+ b) = has_comma a || has_comma b.
Proof.
  induction a as [|c a IH]; [done|].
  change (String c a +:+ b) with (String c (a +:+ b)). cbn [has_comma].
  by rewrite IH, orb_assoc.
Qed.

Lemma GET_issues_two (a b : string) st since (w : world) :
  has_comma a = false → has_comma b = false →
  GET_issues (join_commas [a; b]) st since w
  = (inr (Tracker.list_issues [a; b] st since (tracker w)), w).
Proof.
  intros Ha Hb. unfold GET_issues. rewrite labels_param_join; [done|done|].
  by repeat (apply Forall_cons; split; [done|]).
Qed.

Lemma GET_issues_three (a b : string) st since (w : world) :
  has_comma a = false → has_comma b = false →
  GET_issues (join_commas ["gh-store"; a; b]) st since w
  = (inr (Tracker.list_issues ["gh-store"; a; b] st since (tracker w)), w).
Proof.
  intros Ha Hb. unfold GET_issues. rewrite labels_param_join; [done|done|].
  by repeat (apply Forall_cons; split; [done|]).
Qed.

Lemma set_lookup now e n cr up c :
  IssueCache.cache (IssueCache.set now e n cr up c) !! e = Some (IssueCache.Entry n now cr up).
Proof. unfold IssueCache.set. simpl. apply lookup_insert_eq. Qed.

Lemma set_ttl now e n cr up c :
  IssueCache.ttl (IssueCache.set now e n cr up c) = IssueCache.ttl c.
Proof.
  unfold IssueCache.set. simpl.
  destruct (_ && _); [|done].
  destruct (last _); [|done]. by destruct (truthy_string _).
Qed.

Lemma get_issue_number n tr i :
  Tracker.get_issue n tr = Some i → Tracker.number i = n.
Proof.
  unfold Tracker.get_issue. intros H. apply find_some in H as [_ H].
  by apply Nat.eqb_eq in H.
Qed.

Lemma has_label_elem l i :
  l ∈ Tracker.labels i → Tracker.has_label l i = true.
Proof.
  intros Hin. unfold Tracker.has_label. apply existsb_exists.
  exists l. split; [by apply list_elem_of_In|apply String.eqb_refl].
Qed.

Lemma get_ttl now e c :
  IssueCache.ttl (IssueCache.get now e c).2 = IssueCache.ttl c.
Proof.
  unfold IssueCache.get. destruct (IssueCache.cache c !! e); [|done].
  by destruct (_ <? _).
Qed.

Lemma history_loop_acc (s : list Tracker.comment) (i : list history_entry) :
  getObjectHistory_loop s i = i ++ getObjectHistory_loop s [].
Proof.
  revert i. induction s as [|a s IH]; intros i; simpl.
  - by rewrite app_nil_r.
  - destruct (decode_comment a) as [x|h]; [apply IH|].
    rewrite (IH (i ++ [h])), (IH [h]). by rewrite <- app_assoc.
Qed.

Lemma history_loop_snoc (s : list Tracker.comment) (a : Tracker.comment) :
  getObjectHistory_loop (s ++ [a]) []
  = getObjectHistory_loop s []
    ++ match decode_comment a with inr h => [h] | inl _ => [] end.
Proof.
  induction s as [|b s IH]; simpl.
  - by destruct (decode_comment a).
  - destruct (decode_comment b) as [x|h]; [apply IH|].
    rewrite (history_loop_acc _ [h]), (history_loop_acc s [h]), IH.
    by rewrite app_assoc.
Qed.

Lemma has_label_true l i :
  Tracker.has_label l i = true → l ∈ Tracker.labels i.
Proof.
  unfold Tracker.has_label. intros (x & Hin & Heq)%existsb_exists.
  apply String.eqb_eq in Heq. subst x. by apply list_elem_of_In.
Qed.


Section ClientFacts.
Variable toISOString : Z -> string.
Variable this : client.
Let cfg := client_config this.

Lemma createObject_ok (e : string) (t : json) (r : list string) (w : world) :
  token_truthy (client_token this) = true →
  createObject toISOString this e t r w
  = (inr {| meta := {| objectId := e; label := idLabel this e;
                       issueNumber := S (Tracker.last_number (tracker w));
                       createdAt := clock w; updatedAt := clock w; version := 1 |};
            data := t |},
     {| the_cache := IssueCache.set (clock w) e (S (Tracker.last_number (tracker w)))
                       (clock w) (clock w) (the_cache w);
        tracker := {| Tracker.issues := created_issue toISOString this e t r w :: Tracker.issues (tracker w);
                      Tracker.last_number := S (Tracker.last_number (tracker w));
                      Tracker.last_comment_id := S (Tracker.last_comment_id (tracker w));
                      Tracker.per_page := Tracker.per_page (tracker w) |};
        clock := clock w |}).
Proof.
  intros Htok. unfold createObject. rewrite Htok. simpl.
  unfold bind, POST_issues, answer, cache_set, createCommentPayload, POST_comments,
    POST_reactions, PATCH_issue, Date_now, ret, bind. simpl.
  unfold Tracker.post_comment. simpl. rewrite Nat.eqb_refl. simpl.
  unfold Tracker.post_reaction. simpl. rewrite Nat.eqb_refl. simpl.
  rewrite Nat.eqb_refl. simpl.
  unfold Tracker.patch_state. simpl. rewrite Nat.eqb_refl. simpl.
  reflexivity.
Qed.

(** The read that [getObject] ends in, once the issue [r] is in hand. *)
Lemma getObject_assemble_ok (e : string) (r : Tracker.issue) (v : json) (w : world) :
  Tracker.body r = Some (JSONText v) →
  Tracker.get_issue (Tracker.number r) (tracker w) = Some r →
  getObject_assemble this e r w
  = (inr {| meta := {| objectId := e; label := idLabel this e;
                       issueNumber := Tracker.number r;
                       createdAt := Tracker.created_at r;
                       updatedAt := Tracker.updated_at r;
                       version := (length (take (Tracker.per_page (tracker w))
                                                (Tracker.comments r)) + 1)%nat |};
            data := v |},
     with_the_cache (IssueCache.set (clock w) e (Tracker.number r)
                       (Tracker.created_at r) (Tracker.updated_at r) (the_cache w)) w).
Proof.
  intros Hbody Hget. unfold getObject_assemble. rewrite Hbody. simpl.
  unfold bind, lift, cache_set, _getVersion, GET_comments, bind, answer, ret. simpl.
  unfold Tracker.list_comments. rewrite Hget. simpl. reflexivity.
Qed.

Lemma getObject_hit (e : string) (ent : IssueCache.entry) (n : nat)
    (r : Tracker.issue) (v : json) (w : world) :
  IssueCache.cache (the_cache w) !! e = Some ent →
  clock w - IssueCache.lastAccessed ent ≤ IssueCache.ttl (the_cache w) →
  IssueCache.issueNumber ent = S n →
  Tracker.get_issue (S n) (tracker w) = Some r →
  _verifyIssueLabels this r e = true →
  Tracker.body r = Some (JSONText v) →
  getObject this e w
  = (inr {| meta := {| objectId := e; label := idLabel this e;
                       issueNumber := S n;
                       createdAt := Tracker.created_at r;
                       updatedAt := Tracker.updated_at r;
                       version := (length (take (Tracker.per_page (tracker w))
                                                (Tracker.comments r)) + 1)%nat |};
            data := v |},
     with_the_cache (IssueCache.set (clock w) e (S n)
                       (Tracker.created_at r) (Tracker.updated_at r)
                       (IssueCache.get (clock w) e (the_cache w)).2) w).
Proof.
  intros Hent Hfresh Hn Hget Hver Hbody.
  pose proof (get_issue_number _ _ _ Hget) as Hnum.
  unfold getObject, bind at 1 2. unfold getObject_cached, bind at 1, cache_get.
  unfold IssueCache.get. rewrite Hent.
  destruct (Z.ltb_spec (IssueCache.ttl (the_cache w)) (clock w - IssueCache.lastAccessed ent));
    [lia|].
  rewrite Hn. unfold catch, bind, GET_issue, answer. simpl. rewrite Hget. simpl.
  rewrite Hver. unfold ret.
  rewrite (getObject_assemble_ok e r v); [|done|by rewrite Hnum].
  rewrite Hnum. reflexivity.
Qed.


Lemma getObject_miss (e : string) (r : Tracker.issue) (rest : list Tracker.issue)
    (v : json) (w : world) :
  has_comma (baseLabel cfg) = false →
  has_comma (idLabel this e) = false →
  (IssueCache.get (clock w) e (the_cache w)).1 = None →
  Tracker.list_issues ["gh-store"; baseLabel cfg; idLabel this e]
                      (Some Tracker.Closed) None (tracker w) = r :: rest →
  Tracker.get_issue (Tracker.number r) (tracker w) = Some r →
  Tracker.body r = Some (JSONText v) →
  getObject this e w
  = (inr {| meta := {| objectId := e; label := idLabel this e;
                       issueNumber := Tracker.number r;
                       createdAt := Tracker.created_at r;
                       updatedAt := Tracker.updated_at r;
                       version := (length (take (Tracker.per_page (tracker w))
                                                (Tracker.comments r)) + 1)%nat |};
            data := v |},
     with_the_cache (IssueCache.set (clock w) e (Tracker.number r)
                       (Tracker.created_at r) (Tracker.updated_at r)
                       (IssueCache.get (clock w) e (the_cache w)).2) w).
Proof.
  intros Hbase Hid Hmiss Hlist Hget Hbody.
  unfold getObject, bind at 1 2. unfold getObject_cached, bind at 1, cache_get.
  destruct (IssueCache.get (clock w) e (the_cache w)) as [res c'] eqn:Hg.
  simpl in Hmiss. subst res. unfold ret.
  unfold getObject_query, bind. fold cfg. rewrite GET_issues_three by done.
  simpl. fold cfg. rewrite Hlist.
  unfold ret. by rewrite (getObject_assemble_ok e r v).
Qed.

Lemma verify_base (r : Tracker.issue) (e : string) :
  baseLabel cfg ∈ Tracker.labels r → _verifyIssueLabels this r e = true.
Proof.
  intros Hin. unfold _verifyIssueLabels. apply existsb_exists.
  exists (baseLabel cfg). split; [by apply list_elem_of_In|].
  fold cfg. by rewrite String.eqb_refl.
Qed.

Lemma verify_created (e : string) (t : json) (r : list string) (w : world) :
  _verifyIssueLabels this (created_issue toISOString this e t r w) e = true.
Proof. apply verify_base. simpl. set_solver. Qed.

Lemma matches_created (e : string) (t : json) (r : list string) (w : world) :
  Tracker.matches ["gh-store"; baseLabel cfg; idLabel this e]
                  (Some Tracker.Closed) None (created_issue toISOString this e t r w) = true.
Proof.
  unfold Tracker.matches. cbn [forallb].
  rewrite !has_label_elem; [reflexivity|..]. all: simpl; fold cfg; set_solver.
Qed.

(** C1, as amended: with a write token and a page of at least one item, for
    any ID [e] and data [t], [createObject(e, t)] followed at once by
    [getObject(e)] returns data equal to [t] and version 2: the backing issue
    then carries one event-log entry, the initial-state comment, and the
    version is that number plus 1. The read finds the issue through the
    cache entry when [ttl] is not negative, and through the label query
    otherwise, which takes a base label and an ID label without a comma:
    the query joins the labels with commas. *)
Theorem create_then_get (e : string) (t : json) (r : list string) (w : world) :
  token_truthy (client_token this) = true →
  (1 ≤ Tracker.per_page (tracker w))%nat →
  0 ≤ IssueCache.ttl (the_cache w)
  ∨ has_comma (baseLabel cfg) = false ∧ has_comma (idLabel this e) = false →
  ∃ o w1 o' w2 i,
    createObject toISOString this e t r w = (inr o, w1)
    ∧ getObject this e w1 = (inr o', w2)
    ∧ data o' = t
    ∧ version (meta o') = 2%nat
    ∧ Tracker.get_issue (issueNumber (meta o')) (tracker w2) = Some i
    ∧ length (Tracker.comments i) = 1%nat
    ∧ version (meta o') = (length (Tracker.comments i) + 1)%nat.
Proof.
  intros Htok Hpage Hfound.
  pose proof (createObject_ok e t r w Htok) as Hc.
  set (w1 := World _ _ _) in Hc.
  set (i := created_issue toISOString this e t r w).
  assert (Tracker.get_issue (Tracker.number i) (tracker w1) = Some i) as Hget.
  { unfold Tracker.get_issue. simpl. by rewrite Nat.eqb_refl. }
  assert (length (take (Tracker.per_page (tracker w1)) (Tracker.comments i)) = 1%nat)
    as Hlen.
  { rewrite length_take. simpl. lia. }
  assert (∃ c, getObject this e w1
               = (inr {| meta := {| objectId := e; label := idLabel this e;
                                    issueNumber := Tracker.number i;
                                    createdAt := Tracker.created_at i;
                                    updatedAt := Tracker.updated_at i;
                                    version := 2 |};
                         data := t |}, with_the_cache c w1)) as [c Hg].
  { destruct (Z.le_gt_cases 0 (IssueCache.ttl (the_cache w))) as [Httl|Httl].
    2: destruct Hfound as [Hlive|[Hbase Hid]]; [lia|].
    - eexists.
      rewrite (getObject_hit e _ (Tracker.last_number (tracker w)) i t w1
                 (set_lookup _ _ _ _ _ _)); try done.
      + by rewrite Hlen.
      + unfold w1. cbn. rewrite set_ttl. lia.
      + apply verify_created.
    - eexists.
      rewrite (getObject_miss e i (take (Tracker.per_page (tracker w) - 1)
                 (List.filter (Tracker.matches ["gh-store"; baseLabel cfg; idLabel this e]
                                 (Some Tracker.Closed) None)
                              (Tracker.issues (tracker w)))) t w1); try done.
      + by rewrite Hlen.
      + unfold IssueCache.get, w1. cbn. rewrite set_lookup. cbn. rewrite set_ttl.
        destruct (Z.ltb_spec (IssueCache.ttl (the_cache w)) (clock w - clock w));
          [done|lia].
      + unfold Tracker.list_issues, w1. simpl. rewrite matches_created.
        destruct (Tracker.per_page (tracker w)) as [|p] eqn:Hp; [simpl in Hpage; lia|].
        simpl. by rewrite Nat.sub_0_r. }
  eexists _, w1, _, _, i. split; [exact Hc|]. split; [exact Hg|].
  repeat split; try done.
Qed.


Lemma updateObject_step (e : string) (n : nat) (v : json)
    (hs : list (json * option json)) (w : world) (dt : Z) (d : json) :
  token_truthy (client_token this) = true →
  backed this e n v hs w →
  dt ≤ IssueCache.ttl (the_cache w) →
  (length hs + 1 ≤ Tracker.per_page (tracker w))%nat →
  ∃ o w',
    updateObject toISOString this e d (advance dt w) = (inr o, w')
    ∧ version (meta o) = (length hs + 2)%nat ∧ data o = v
    ∧ issueNumber (meta o) = S n
    ∧ backed this e n v (hs ++ [(JStr "update", Some d)]) w'
    ∧ IssueCache.ttl (the_cache w') = IssueCache.ttl (the_cache w)
    ∧ Tracker.per_page (tracker w') = Tracker.per_page (tracker w).
Proof.
  intros Htok [i rest ent Hiss Hnum Hbase Hid Hbc Hic Hbody Hk Hhs Hent Htgt Htouch] Hdt Hpage.
  unfold updateObject. rewrite Htok. cbn [negb].
  unfold bind at 1. rewrite GET_issues_two by done. unfold Tracker.list_issues.
  cbn [tracker advance]. rewrite Hiss. cbn [List.filter].
  assert (Tracker.matches [baseLabel (client_config this); idLabel this e] None None i = true)
    as ->.
  { unfold Tracker.matches. cbn [forallb]. by rewrite !has_label_elem. }
  destruct (Tracker.per_page (tracker w)) as [|p] eqn:Hp; [lia|]. cbn [take].
  unfold bind at 1. unfold createCommentPayload, bind at 1, Date_now, ret.
  unfold bind at 1. unfold POST_comments, answer, Tracker.post_comment.
  cbn [tracker advance clock]. rewrite Hiss. cbn [Tracker.alter_issue].
  rewrite Nat.eqb_refl.
  unfold bind at 1. unfold PATCH_issue, answer, Tracker.patch_state.
  cbn [tracker with_tracker Tracker.issues Tracker.alter_issue Tracker.number].
  rewrite Nat.eqb_refl. cbn [Tracker.number Tracker.title Tracker.body Tracker.labels
    Tracker.state Tracker.created_at Tracker.updated_at Tracker.comments
    with_tracker the_cache clock].
  set (c := Tracker.Comment _ _ _ _).
  set (i2 := Tracker.Issue _ _ _ _ _ _ _ _).
  unfold with_tracker, Tracker.with_issues, advance.
  cbn [the_cache tracker clock Tracker.last_number Tracker.last_comment_id
       Tracker.per_page Tracker.issues].
  set (w2 := World _ _ _).
  assert (Tracker.get_issue (S n) (tracker w2) = Some i2) as Hget.
  { unfold Tracker.get_issue, w2. cbn. by rewrite Hnum, Nat.eqb_refl. }
  erewrite (getObject_hit e ent n i2 v w2); try done.
  - eexists _, _. split; [reflexivity|]. cbn.
    rewrite length_take, length_app, Hk. cbn.
    repeat split; try lia.
    + apply (Backed this _ _ _ _ _ i2 rest
               (IssueCache.Entry (S n) (clock w + dt) (Tracker.created_at i)
                                 (clock w + dt))); try done.
      * cbn. by rewrite !length_app, Hk.
      * cbn. by rewrite history_loop_snoc, fmap_app, Hhs.
      * cbn. apply set_lookup.
    + by rewrite set_ttl, get_ttl.
  - unfold w2. cbn. lia.
  - by apply verify_base.
Qed.


Lemma createObject_backed (e : string) (t : json) (r : list string) (w : world) :
  token_truthy (client_token this) = true →
  has_comma (baseLabel cfg) = false →
  has_comma (idLabel this e) = false →
  ∃ o w1,
    createObject toISOString this e t r w = (inr o, w1)
    ∧ version (meta o) = 1%nat ∧ data o = t
    ∧ backed this e (Tracker.last_number (tracker w)) t [(JStr "initial_state", Some t)] w1
    ∧ IssueCache.ttl (the_cache w1) = IssueCache.ttl (the_cache w)
    ∧ Tracker.per_page (tracker w1) = Tracker.per_page (tracker w).
Proof.
  intros Htok Hbc Hic. eexists _, _. split; [by apply createObject_ok|].
  repeat split.
  - apply (Backed this _ _ _ _ _ (created_issue toISOString this e t r w) (Tracker.issues (tracker w))
             (IssueCache.Entry (S (Tracker.last_number (tracker w)))
                               (clock w) (clock w) (clock w))); try done.
    + simpl. fold cfg. set_solver.
    + simpl. fold cfg. set_solver.
    + apply set_lookup.
  - apply set_ttl.
Qed.

Lemma run_updates_ok (e : string) (n : nat) (v : json)
    (ups : list (Z * json)) :
  token_truthy (client_token this) = true →
  ∀ (hs : list (json * option json)) (w : world),
    backed this e n v hs w →
    Forall (fun u => u.1 ≤ IssueCache.ttl (the_cache w)) ups →
    (length hs + length ups ≤ Tracker.per_page (tracker w))%nat →
    ∃ os w',
      run_updates toISOString this e ups w = (inr os, w')
      ∧ (fun o => version (meta o)) <$> os = seq (length hs + 2) (length ups)
      ∧ Forall (fun o => data o = v ∧ issueNumber (meta o) = S n) os
      ∧ backed this e n v (hs ++ ((fun u => (JStr "update", Some u.2)) <$> ups)) w'
      ∧ IssueCache.ttl (the_cache w') = IssueCache.ttl (the_cache w)
      ∧ Tracker.per_page (tracker w') = Tracker.per_page (tracker w).
Proof.
  intros Htok. induction ups as [|[dt d] ups IH]; intros hs w Hb Hdt Hpage.
  - exists [], w. simpl. rewrite app_nil_r. by repeat split.
  - apply Forall_cons in Hdt as [Hdt Hrest]. simpl in Hdt, Hpage.
    destruct (updateObject_step e n v hs w dt d Htok Hb Hdt)
      as (o & w1 & Hup & Hver & Hdata & Hnum & Hb1 & Httl1 & Hpp1); [lia|].
    destruct (IH _ _ Hb1) as (os & w2 & Hrun & Hvers & Hall & Hb2 & Httl2 & Hpp2).
    { by rewrite Httl1. }
    { rewrite Hpp1, length_app. simpl. lia. }
    exists (o :: os), w2. repeat split.
    + cbn [run_updates]. unfold bind at 1. unfold run_updates_step. cbn [fst snd].
      rewrite Hup. unfold bind at 1. by rewrite Hrun.
    + cbn [fmap list_fmap length seq]. rewrite Hver. f_equal.
      rewrite length_app in Hvers. simpl in Hvers.
      change (list_fmap _ _ ?f os) with (f <$> os). rewrite Hvers.
      f_equal. lia.
    + by constructor.
    + rewrite fmap_cons. cbn [snd]. by rewrite <- app_assoc in Hb2.
    + by rewrite Httl2.
    + by rewrite Hpp2.
Qed.

(** C4, as amended: with a write token, a base label and an ID label without
    a comma (the query of [updateObject] joins the two with commas), each
    call no later than [ttl] after the one before and the comments fitting in
    one page, an object created by [createObject] and then updated by
    repeated [updateObject(e, d_i)] calls gets the versions 3, 4, 5, ... from
    them, one more at each call, whatever the [d_i] are. *)
Theorem update_versions (e : string) (t : json) (r : list string)
    (ups : list (Z * json)) (w : world) :
  token_truthy (client_token this) = true →
  has_comma (baseLabel cfg) = false →
  has_comma (idLabel this e) = false →
  Forall (fun u => u.1 ≤ IssueCache.ttl (the_cache w)) ups →
  (1 + length ups ≤ Tracker.per_page (tracker w))%nat →
  ∃ o w1 os w2,
    createObject toISOString this e t r w = (inr o, w1)
    ∧ run_updates toISOString this e ups w1 = (inr os, w2)
    ∧ (fun o => version (meta o)) <$> os = seq 3 (length ups).
Proof.
  intros Htok Hbc Hic Hdt Hpage.
  destruct (createObject_backed e t r w Htok Hbc Hic)
    as (o & w1 & Hc & Hv & _ & Hb & Httl & Hpp).
  destruct (run_updates_ok e _ t ups Htok _ _ Hb) as (os & w2 & Hrun & Hvers & _).
  { by rewrite Httl. }
  { rewrite Hpp. simpl. lia. }
  by exists o, w1, os, w2.
Qed.

Lemma getObjectHistory_backed (e : string) (n : nat) (v : json)
    (hs : list (json * option json)) (w : world) :
  backed this e n v hs w →
  (1 ≤ Tracker.per_page (tracker w))%nat →
  (length hs ≤ Tracker.per_page (tracker w))%nat →
  ∃ h, getObjectHistory this e w = (inr h, w) ∧ summary <$> h = hs.
Proof.
  intros [i rest ent Hiss Hnum Hbase Hid Hbc Hic Hbody Hk Hhs Hent Htgt Htouch] Hp1 Hpage.
  unfold getObjectHistory. unfold bind at 1. rewrite GET_issues_two by done.
  unfold Tracker.list_issues. rewrite Hiss. cbn [List.filter].
  assert (Tracker.matches [baseLabel (client_config this); idLabel this e] None None i = true)
    as ->.
  { unfold Tracker.matches. cbn [forallb]. by rewrite !has_label_elem. }
  destruct (Tracker.per_page (tracker w)) as [|p] eqn:Hp; [lia|]. cbn [take].
  unfold bind, GET_comments, answer, Tracker.list_comments, Tracker.get_issue.
  rewrite Hiss. cbn [find]. rewrite Nat.eqb_refl. cbn [option_map].
  rewrite Hp, take_ge by lia.
  eexists. split; [|exact Hhs]. unfold ret. f_equal. by destruct w as [? [] ?].
Qed.



Lemma getObject_cached_tracker (e : string) (w : world) :
  tracker (getObject_cached this e w).2 = tracker w.
Proof.
  unfold getObject_cached, bind, cache_get.
  destruct (IssueCache.get (clock w) e (the_cache w)) as [[[|n]|] c]; try done.
  unfold catch, GET_issue, answer. cbn.
  destruct (Tracker.get_issue (S n) (tracker w)) as [r|]; cbn; [|done].
  by destruct (_verifyIssueLabels this r e).
Qed.

(** Whenever [getObject] returns, the version it reports is the number of
    comments on the first page of the issue it read, plus 1; the tracker is
    left as it was. *)
Lemma getObject_version (e : string) (o : StoredObject) (w w' : world) :
  getObject this e w = (inr o, w') →
  tracker w' = tracker w
  ∧ ∃ i, Tracker.get_issue (issueNumber (meta o)) (tracker w) = Some i
         ∧ version (meta o)
           = (length (take (Tracker.per_page (tracker w)) (Tracker.comments i)) + 1)%nat.
Proof.
  unfold getObject. unfold bind at 1.
  pose proof (getObject_cached_tracker e w) as Htr.
  destruct (getObject_cached this e w) as [[x|r] w1]; [done|]. cbn in Htr.
  unfold bind at 1.
  assert (∀ r' w2, match r with Some r0 => ret r0 | None => getObject_query this e end w1
                   = (inr r', w2) → tracker w2 = tracker w) as Hq.
  { intros r' w2. destruct r as [r0|].
    - unfold ret. by intros [= <- <-].
    - unfold getObject_query, bind, GET_issues.
      destruct (Tracker.list_issues _ _ _ _); [done|]. unfold ret. by intros [= <- <-]. }
  destruct (match r with Some r0 => ret r0 | None => getObject_query this e end w1)
    as [[x|r'] w2]; [done|].
  specialize (Hq r' w2 eq_refl).
  unfold getObject_assemble. destruct (body_falsy _); [done|].
  unfold bind at 1. unfold lift.
  destruct (JSON_parse_body _) as [x|s]; [done|].
  unfold bind at 1. unfold cache_set. unfold bind at 1.
  unfold _getVersion, bind, GET_comments, answer, Tracker.list_comments. cbn.
  rewrite Hq.
  destruct (Tracker.get_issue (Tracker.number r') (tracker w)) as [i|] eqn:Hi; [|done].
  cbn. unfold ret. intros [= <- <-]. cbn. split; [done|]. by exists i.
Qed.



End ClientFacts.

(** A step that threw has no value to speak of. *)
Ltac no_outcome := split; intros ? ? [= ]; done.

Lemma with_tracker_same (w : world) : with_tracker (tracker w) w = w.
Proof. by destruct w. Qed.

Lemma _getVersion_world (n : nat) (w : world) : (_getVersion n w).2 = w.
Proof.
  unfold _getVersion, bind, GET_comments, answer.
  destruct (Tracker.list_comments n (tracker w)); cbn; [apply with_tracker_same|done].
Qed.

Lemma substring_all (s : string) : String.substring 0 (String.length s) s = s.
Proof. induction s as [|c s IH]; [done|]. simpl. by rewrite IH. Qed.

Lemma prefix_strip (p t : string) :
  String.prefix p t = true →
  p +:+ String.substring (String.length p) (String.length t - String.length p) t = t.
Proof.
  revert t. induction p as [|a p IH]; intros t Hp.
  - simpl. rewrite Nat.sub_0_r. apply substring_all.
  - destruct t as [|b t]; [done|]. simpl in Hp.
    destruct (Ascii.ascii_dec a b) as [->|]; [|done].
    simpl. change (String b p +:+ ?x) with (String b (p +:+ x)).
    f_equal. by apply IH.
Qed.

Lemma length_append (p s : string) :
  String.length (p +:+ s) = (String.length p + String.length s)%nat.
Proof.
  induction p as [|a p IH]; [done|].
  change (String a p +:+ s) with (String a (p +:+ s)). simpl. by rewrite IH.
Qed.

Lemma append_nonempty_neq (p s : string) : p ≠ "" → p +:+ s ≠ s.
Proof.
  intros Hp Heq. apply (f_equal String.length) in Heq.
  rewrite length_append in Heq. destruct p; [done|]. simpl in Heq. lia.
Qed.

Section ListFacts.
Variable this : client.
Let cfg := client_config this.

Lemma _getObjectIdFromLabels_loop_label (ls : list string) (s : string) :
  _getObjectIdFromLabels_loop this ls = inr s →
  uidPrefix cfg +:+ s ∈ ls ∧ uidPrefix cfg +:+ s ≠ baseLabel cfg.
Proof.
  subst cfg. induction ls as [|t ls IH]; [done|]. simpl.
  destruct (negb (String.eqb t (baseLabel (client_config this)))) eqn:Hb; simpl.
  - destruct (String.prefix (uidPrefix (client_config this)) t) eqn:Hp.
    + intros [= <-]. rewrite (prefix_strip _ _ Hp). split; [set_solver|].
      apply negb_true_iff in Hb. by apply String.eqb_neq in Hb.
    + intros H. destruct (IH H). split; [set_solver|done].
  - intros H. destruct (IH H). split; [set_solver|done].
Qed.

Lemma listed_assign src lo res s id o :
  listed this src lo res →
  objectId (meta o) = id → label (meta o) = id →
  s ∈ src → uidPrefix cfg +:+ id ∈ Tracker.labels s → is_archived s = false →
  issueNumber (meta o) = Tracker.number s →
  updatedAt (meta o) = Tracker.updated_at s →
  JSON_parse_body (Tracker.body s) = inr (data o) →
  match lo with Some e => e < Tracker.updated_at s | None => True end →
  listed this src lo (assign id o res).
Proof.
  intros H ? ? ? ? ? ? ? ? ? id' o'. unfold assign.
  destruct (String.eqb id "__proto__"); [apply H|].
  destruct (decide (id = id')) as [<-|Hne].
  - rewrite lookup_insert_eq. intros [= <-]. repeat split; try done. by exists s.
  - rewrite lookup_insert_ne by done. apply H.
Qed.

Lemma catch_step_listed (step : M (gmap string StoredObject))
    (src : list Tracker.issue) (lo : option Z) (t : gmap string StoredObject)
    (w : world) :
  listed this src lo t →
  (∀ res w', step w = (inr res, w') → w' = w ∧ listed this src lo res) →
  (∀ x w', step w = (inl x, w') → w' = w) →
  ∃ res, catch step (ret t) w = (inr res, w) ∧ listed this src lo res.
Proof.
  intros Ht Hok Herr. unfold catch.
  destruct (step w) as [[x|res] w'] eqn:Hs.
  - rewrite (Herr _ _ eq_refl). by exists t.
  - destruct (Hok _ _ eq_refl) as [-> ?]. by exists res.
Qed.

Lemma listAll_step_listed (src : list Tracker.issue) (r : Tracker.issue)
    (t : gmap string StoredObject) (w : world) :
  r ∈ src → is_archived r = false → listed this src None t →
  (∀ res w', listAll_step this r t w = (inr res, w') → w' = w ∧ listed this src None res)
  ∧ (∀ x w', listAll_step this r t w = (inl x, w') → w' = w).
Proof.
  intros Hr Harch Ht. unfold listAll_step.
  unfold bind at 1 3. unfold lift.
  destruct (_getObjectIdFromLabels this r) as [x|s] eqn:Hid;
    [no_outcome|].
  unfold bind at 1 3.
  destruct (JSON_parse_body (Tracker.body r)) as [x|i] eqn:Hparse;
    [no_outcome|].
  unfold bind.
  pose proof (_getVersion_world (Tracker.number r) w) as Hw.
  destruct (_getVersion (Tracker.number r) w) as [[x|v] w1]; cbn in Hw; subst w1;
    [no_outcome|].
  unfold ret. split; [|done]. intros res w' [= <- <-]. split; [done|].
  apply _getObjectIdFromLabels_loop_label in Hid as [Hlab _].
  by apply (listed_assign src None t r).
Qed.

Lemma listAll_loop_listed (src e : list Tracker.issue) :
  e ⊆ src →
  ∀ (t : gmap string StoredObject) (w : world),
    listed this src None t →
    ∃ res, listAll_loop this e t w = (inr res, w) ∧ listed this src None res.
Proof.
  induction e as [|r e IH]; intros Hsub t w Ht.
  - by exists t.
  - cbn [listAll_loop].
    destruct (is_archived r) eqn:Harch; [apply IH; [set_solver|done]|].
    destruct (listAll_step_listed src r t w) as [Hok Herr]; [set_solver|done|done|].
    destruct (catch_step_listed _ src None t w Ht Hok Herr) as (t' & Hc & Ht').
    unfold bind. rewrite Hc. apply IH; [set_solver|done].
Qed.

Lemma listUpdatedSince_step_listed (lo : Z) (src : list Tracker.issue)
    (r : Tracker.issue) (t : gmap string StoredObject) (w : world) :
  r ∈ src → is_archived r = false → listed this src (Some lo) t →
  (∀ res w', listUpdatedSince_step this lo r t w = (inr res, w')
             → w' = w ∧ listed this src (Some lo) res)
  ∧ (∀ x w', listUpdatedSince_step this lo r t w = (inl x, w') → w' = w).
Proof.
  intros Hr Harch Ht. unfold listUpdatedSince_step.
  unfold bind at 1 4. unfold lift.
  destruct (_getObjectIdFromLabels this r) as [x|s] eqn:Hid;
    [no_outcome|].
  unfold bind at 1 3.
  destruct (JSON_parse_body (Tracker.body r)) as [x|i] eqn:Hparse;
    [no_outcome|].
  destruct (Z.ltb_spec lo (Tracker.updated_at r)) as [Hlt|Hge].
  - unfold bind.
    pose proof (_getVersion_world (Tracker.number r) w) as Hw.
    destruct (_getVersion (Tracker.number r) w) as [[x|v] w1]; cbn in Hw; subst w1;
      [no_outcome|].
    unfold ret. split; [|done]. intros res w' [= <- <-]. split; [done|].
    apply _getObjectIdFromLabels_loop_label in Hid as [Hlab _].
    by apply (listed_assign src (Some lo) t r).
  - unfold ret. split; [|done]. by intros res w' [= <- <-].
Qed.

Lemma listUpdatedSince_loop_listed (lo : Z) (src e : list Tracker.issue) :
  e ⊆ src →
  ∀ (t : gmap string StoredObject) (w : world),
    listed this src (Some lo) t →
    ∃ res, listUpdatedSince_loop this lo e t w = (inr res, w)
           ∧ listed this src (Some lo) res.
Proof.
  induction e as [|r e IH]; intros Hsub t w Ht.
  - by exists t.
  - cbn [listUpdatedSince_loop].
    destruct (is_archived r) eqn:Harch; [apply IH; [set_solver|done]|].
    destruct (listUpdatedSince_step_listed lo src r t w) as [Hok Herr];
      [set_solver|done|done|].
    destruct (catch_step_listed _ src (Some lo) t w Ht Hok Herr) as (t' & Hc & Ht').
    unfold bind. rewrite Hc. apply IH; [set_solver|done].
Qed.

Lemma list_issues_sub ls st since tr :
  Tracker.list_issues ls st since tr ⊆ Tracker.issues tr.
Proof.
  intros i Hi. unfold Tracker.list_issues in Hi. apply subseteq_take in Hi.
  apply list_elem_of_In, filter_In in Hi as [Hi _]. by apply list_elem_of_In.
Qed.

(** C8: for every timestamp [e], [listUpdatedSince(e)] returns, and every
    object it returns was read from an issue of the tracker whose
    [updated_at] is strictly after [e], whatever the [since] filter of the
    service let through. *)
Theorem listUpdatedSince_strictly_after (e : Z) (w : world) :
  ∃ res,
    listUpdatedSince this e w = (inr res, w)
    ∧ ∀ id o, res !! id = Some o →
        e < updatedAt (meta o)
        ∧ ∃ s, s ∈ Tracker.issues (tracker w)
               ∧ issueNumber (meta o) = Tracker.number s
               ∧ updatedAt (meta o) = Tracker.updated_at s
               ∧ e < Tracker.updated_at s.
Proof.
  unfold listUpdatedSince, bind, GET_issues.
  destruct (listUpdatedSince_loop_listed e (Tracker.issues (tracker w))
              (Tracker.list_issues (Tracker.labels_param (baseLabel (client_config this)))
                 (Some Tracker.Closed) (Some e) (tracker w))
              (list_issues_sub _ _ _ _) ∅ w) as (res & Hres & Hl).
  { intros id o Ho. by rewrite lookup_empty in Ho. }
  exists res. split; [exact Hres|].
  intros id o Ho. destruct (Hl id o Ho) as (_ & _ & s & Hs & _ & _ & Hn & Hu & _ & Hlt).
  split; [by rewrite Hu|]. by exists s.
Qed.

Lemma getObject_label (e : string) (o : StoredObject) (w w' : world) :
  getObject this e w = (inr o, w') → label (meta o) = uidPrefix cfg +:+ e.
Proof.
  unfold getObject. unfold bind at 1.
  destruct (getObject_cached this e w) as [[x|r] w1]; [done|].
  unfold bind at 1.
  destruct (match r with Some r0 => ret r0 | None => getObject_query this e end w1)
    as [[x|r'] w2]; [done|].
  unfold getObject_assemble. destruct (body_falsy _); [done|].
  unfold bind at 1. unfold lift.
  destruct (JSON_parse_body _) as [x|s]; [done|].
  unfold bind at 1. unfold cache_set. unfold bind at 1.
  destruct (_getVersion _ _) as [[x|v] w'']; [done|].
  unfold ret. by intros [= <- <-].
Qed.

(** C10, as amended: [listAll] returns, and every object it assembles has as
    [meta.label] the bare object ID, the UID label of its issue with the
    [uidPrefix] stripped; a [getObject] of that ID that returns has as
    [meta.label] the prefixed label; the two differ whenever the [uidPrefix]
    is not empty. *)
Theorem listAll_label_disagrees (w : world) :
  uidPrefix cfg ≠ "" →
  ∃ res,
    listAll this w = (inr res, w)
    ∧ ∀ id o, res !! id = Some o →
        label (meta o) = id
        ∧ (∃ s, s ∈ Tracker.issues (tracker w)
                ∧ issueNumber (meta o) = Tracker.number s
                ∧ uidPrefix cfg +:+ id ∈ Tracker.labels s)
        ∧ ∀ o' w1 w', getObject this id w1 = (inr o', w') →
            label (meta o') = uidPrefix cfg +:+ id
            ∧ label (meta o') ≠ label (meta o).
Proof.
  intros Hne. unfold listAll, bind, GET_issues.
  destruct (listAll_loop_listed (Tracker.issues (tracker w))
              (Tracker.list_issues (Tracker.labels_param (baseLabel (client_config this)))
                 (Some Tracker.Closed) None (tracker w))
              (list_issues_sub _ _ _ _) ∅ w) as (res & Hres & Hl).
  { intros id o Ho. by rewrite lookup_empty in Ho. }
  exists res. split; [exact Hres|].
  intros id o Ho. destruct (Hl id o Ho) as (_ & Hlab & s & Hs & Hls & _ & Hn & _).
  split; [done|]. split; [by exists s|].
  intros o' w1 w' Hg. apply getObject_label in Hg. split; [done|].
  rewrite Hg, Hlab. by apply append_nonempty_neq.
Qed.

End ListFacts.

(** *** History decoding *)

Section HistoryFacts.
Variable a : Tracker.comment.

Let entry (c : json) (u : option json) : history_entry :=
  HistoryEntry (Tracker.comment_created_at a) c u (Tracker.id a).

Lemma decode_envelope (fs : list (string * json)) (v : json) :
  Tracker.comment_body a = JSONText (JObj fs) →
  field "_data" fs = Some v →
  decode_comment a
  = inr (entry (if truthy (field "type" fs)
                then default JNull (field "type" fs) else JStr "update")
               (Some v)).
Proof.
  intros Hb Hd. unfold decode_comment. rewrite Hb. cbn. by rewrite Hd.
Qed.

Lemma decode_initial_state (fs : list (string * json)) :
  Tracker.comment_body a = JSONText (JObj fs) →
  field "_data" fs = None →
  field "type" fs = Some (JStr "initial_state") →
  decode_comment a = inr (entry (JStr "initial_state") (field "data" fs)).
Proof.
  intros Hb Hd Ht. unfold decode_comment. rewrite Hb. cbn. by rewrite Hd, Ht.
Qed.

Lemma decode_raw (n : json) :
  Tracker.comment_body a = JSONText n →
  n ≠ JNull →
  get_field "_data" n = None →
  get_field "type" n ≠ Some (JStr "initial_state") →
  decode_comment a = inr (entry (JStr "update") (Some n)).
Proof.
  intros Hb Hnull Hd Ht. unfold decode_comment. rewrite Hb. cbn.
  destruct n as [|b|z|s|items|fs]; try done. cbn in *. rewrite Hd. cbn.
  destruct (field "type" fs) as [[| | |ty| |]|] eqn:Hty; cbn; try done.
  by destruct (String.eqb_spec ty "initial_state") as [->|].
Qed.

Lemma decode_null :
  Tracker.comment_body a = JSONText JNull → decode_comment a = inl TypeError.
Proof. intros Hb. unfold decode_comment. by rewrite Hb. Qed.

Lemma decode_not_json (s : string) :
  Tracker.comment_body a = OtherText s → decode_comment a = inl (SyntaxError s).
Proof. intros Hb. unfold decode_comment. by rewrite Hb. Qed.
End HistoryFacts.

Lemma isPublic_iff_null (this : client) :
  isPublic this = true ↔ client_token this = TokenNull.
Proof. unfold isPublic. by destruct (client_token this). Qed.

Lemma mutation_gate (toISOString : Z → string) (this : client) :
  token_truthy (client_token this) = false →
  (∀ e t r w,
     createObject toISOString this e t r w
     = (inl (Error "Authentication required for creating objects"), w))
  ∧ (∀ e t w,
       updateObject toISOString this e t w
       = (inl (Error "Authentication required for updating objects"), w)).
Proof. intros Htok. unfold createObject, updateObject. by rewrite Htok. Qed.

(** C9: for a client whose token is [undefined] or the empty string,
    [isPublic()] is false, and every [createObject] and every [updateObject]
    throws the authentication error and leaves the world as it was. *)
Theorem falsy_token_not_public_yet_rejected (toISOString : Z → string) (this : client) :
  client_token this = TokenUndefined ∨ client_token this = TokenString "" →
  isPublic this = false
  ∧ (∀ e t r w,
       createObject toISOString this e t r w
       = (inl (Error "Authentication required for creating objects"), w))
  ∧ (∀ e t w,
       updateObject toISOString this e t w
       = (inl (Error "Authentication required for updating objects"), w)).
Proof.
  intros Htok. split.
  - apply not_true_is_false. rewrite isPublic_iff_null. by destruct Htok as [-> | ->].
  - apply mutation_gate. by destruct Htok as [-> | ->].
Qed.

Lemma advance_0 (w : world) : advance 0 w = w.
Proof. destruct w. unfold advance. cbn. by rewrite Z.add_0_r. Qed.

Section ScenarioFacts.
Variable toISOString : Z -> string.
Variable this : client.
Let cfg := client_config this.

Lemma getObject_backed (e : string) (n : nat) (v : json)
    (hs : list (json * option json)) (w : world) :
  backed this e n v hs w →
  0 ≤ IssueCache.ttl (the_cache w) →
  (length hs ≤ Tracker.per_page (tracker w))%nat →
  ∃ o w', getObject this e w = (inr o, w')
          ∧ data o = v ∧ version (meta o) = (length hs + 1)%nat
          ∧ issueNumber (meta o) = S n.
Proof.
  intros [i rest ent Hiss Hnum Hbase Hid Hbc Hic Hbody Hk Hhs Hent Htgt Htouch] Httl Hpage.
  assert (Tracker.get_issue (S n) (tracker w) = Some i) as Hget.
  { unfold Tracker.get_issue. rewrite Hiss. cbn. by rewrite Hnum, Nat.eqb_refl. }
  eexists _, _. rewrite (getObject_hit this e ent n i v w); try done.
  - split; [reflexivity|]. cbn. rewrite length_take. repeat split. lia.
  - lia.
  - by apply verify_base.
Qed.

(** C2, as amended: with a write token, a base label and a UID prefix
    without a comma (the queries of [updateObject] and [getObjectHistory]
    join the labels with commas), a [ttl] of at least 0 and a page of at
    least three items, creating [paper:42] with [{title:"X"}] and updating
    it with [{title:"X", rating:"up"}] and then [{title:"X", rating:"down"}]
    gives a history of length 3 with the types [initial_state], [update],
    [update] and the three payloads as data; the final [getObject] returns the
    data written at creation, [{title:"X"}], at version 4. *)
Theorem scenario_paper42 (w : world) :
  token_truthy (client_token this) = true →
  has_comma (baseLabel cfg) = false →
  has_comma (uidPrefix cfg) = false →
  0 ≤ IssueCache.ttl (the_cache w) →
  (3 ≤ Tracker.per_page (tracker w))%nat →
  let X := JObj [("title", JStr "X")] in
  let up := JObj [("title", JStr "X"); ("rating", JStr "up")] in
  let down := JObj [("title", JStr "X"); ("rating", JStr "down")] in
  ∃ o0 w1 o1 w2 o2 w3 h o3 w4,
    createObject toISOString this "paper:42" X [] w = (inr o0, w1)
    ∧ updateObject toISOString this "paper:42" up w1 = (inr o1, w2)
    ∧ updateObject toISOString this "paper:42" down w2 = (inr o2, w3)
    ∧ getObjectHistory this "paper:42" w3 = (inr h, w3)
    ∧ type <$> h = [JStr "initial_state"; JStr "update"; JStr "update"]
    ∧ entry_data <$> h = [Some X; Some up; Some down]
    ∧ getObject this "paper:42" w3 = (inr o3, w4)
    ∧ data o2 = X ∧ data o3 = X ∧ version (meta o3) = 4%nat.
Proof.
  intros Htok Hbc Hpc Httl Hpage X up down.
  assert (has_comma (idLabel this "paper:42") = false) as Hic.
  { unfold idLabel. fold cfg. by rewrite has_comma_append, Hpc. }
  destruct (createObject_backed toISOString this "paper:42" X [] w Htok Hbc Hic)
    as (o0 & w1 & Hc & _ & _ & Hb1 & Httl1 & Hpp1).
  destruct (updateObject_step toISOString this "paper:42" _ X _ w1 0 up Htok Hb1)
    as (o1 & w2 & Hu1 & _ & _ & _ & Hb2 & Httl2 & Hpp2);
    [lia | cbn; lia |].
  rewrite advance_0 in Hu1.
  destruct (updateObject_step toISOString this "paper:42" _ X _ w2 0 down Htok Hb2)
    as (o2 & w3 & Hu2 & _ & Hd2 & _ & Hb3 & Httl3 & Hpp3);
    [lia | cbn; lia |].
  rewrite advance_0 in Hu2.
  destruct (getObjectHistory_backed this "paper:42" _ X _ w3 Hb3)
    as (h & Hh & Hsum); [lia | cbn; lia |].
  destruct (getObject_backed "paper:42" _ X _ w3 Hb3)
    as (o3 & w4 & Hg & Hd3 & Hv3 & _); [lia | cbn; lia |].
  exists o0, w1, o1, w2, o2, w3, h, o3, w4.
  repeat split; try done.
  - apply (f_equal (fmap fst)) in Hsum. rewrite <- list_fmap_compose in Hsum.
    exact Hsum.
  - apply (f_equal (fmap snd)) in Hsum. rewrite <- list_fmap_compose in Hsum.
    exact Hsum.
Qed.
End ScenarioFacts.

(** ** The claims on the example worlds *)

(** [constructor] with a token, a repository and no options gives the
    example client and a cache of 1000 entries that live an hour. *)
Example constructor_defaults :
  constructor (TokenString "ghp_example") "owner/papers" default_options
  = inr (demo_client, IssueCache.Cache ∅ 1000 3600000 []).
Proof. reflexivity. Qed.

Lemma create_then_get_witness :
  ∃ o w1 o' w2 i,
    createObject epoch_toISOString demo_client "paper:42" paper_X [] fresh_world
    = (inr o, w1)
    ∧ getObject demo_client "paper:42" w1 = (inr o', w2)
    ∧ data o' = paper_X
    ∧ version (meta o') = 2%nat
    ∧ Tracker.get_issue (issueNumber (meta o')) (tracker w2) = Some i
    ∧ length (Tracker.comments i) = 1%nat
    ∧ version (meta o') = (length (Tracker.comments i) + 1)%nat.
Proof.
  apply (create_then_get epoch_toISOString demo_client "paper:42" paper_X [] fresh_world).
  - reflexivity.
  - vm_compute. lia.
  - right. split; reflexivity.
Defined.

(** Against C1 as stated: the read that follows the creation reports version 2,
    not 1, because the issue already carries the initial-state comment. *)
Lemma create_then_get_counterexample :
  let w1 := (createObject epoch_toISOString demo_client "paper:42" paper_X []
               fresh_world).2 in
  (getObject demo_client "paper:42" w1).1
  = inr {| meta := {| objectId := "paper:42"; label := "UID:paper:42";
                      issueNumber := 1; createdAt := 0; updatedAt := 0;
                      version := 2 |};
           data := paper_X |}
  ∧ (length <$> Tracker.list_comments 1 (tracker w1)) = Some 1%nat.
Proof. vm_compute. done. Qed.

Lemma update_versions_witness :
  ∃ o w1 os w2,
    createObject epoch_toISOString demo_client "paper:42" paper_X [] fresh_world
    = (inr o, w1)
    ∧ run_updates epoch_toISOString demo_client "paper:42"
        [(0, paper_up); (0, paper_down)] w1 = (inr os, w2)
    ∧ (fun o => version (meta o)) <$> os = seq 3 2.
Proof.
  apply (update_versions epoch_toISOString demo_client "paper:42" paper_X []
           [(0, paper_up); (0, paper_down)] fresh_world).
  - reflexivity.
  - reflexivity.
  - reflexivity.
  - repeat constructor; vm_compute; discriminate.
  - vm_compute. lia.
Defined.

(** Against C4 as stated: the object is created at version 1 and its updates
    return the versions 3 and 4; no call returns version 2. *)
Lemma update_versions_counterexample :
  let created := createObject epoch_toISOString demo_client "paper:42" paper_X []
                   fresh_world in
  on_result (fun o => version (meta o)) created.1 = inr 1%nat
  ∧ on_result (fmap (fun o => version (meta o)))
      (run_updates epoch_toISOString demo_client "paper:42"
         [(0, paper_up); (0, paper_down)] created.2).1
    = inr [3; 4]%nat.
Proof. vm_compute. done. Qed.

Lemma scenario_paper42_witness :
  ∃ o0 w1 o1 w2 o2 w3 h o3 w4,
    createObject epoch_toISOString demo_client "paper:42" paper_X [] fresh_world
    = (inr o0, w1)
    ∧ updateObject epoch_toISOString demo_client "paper:42" paper_up w1 = (inr o1, w2)
    ∧ updateObject epoch_toISOString demo_client "paper:42" paper_down w2 = (inr o2, w3)
    ∧ getObjectHistory demo_client "paper:42" w3 = (inr h, w3)
    ∧ type <$> h = [JStr "initial_state"; JStr "update"; JStr "update"]
    ∧ entry_data <$> h = [Some paper_X; Some paper_up; Some paper_down]
    ∧ getObject demo_client "paper:42" w3 = (inr o3, w4)
    ∧ data o2 = paper_X ∧ data o3 = paper_X ∧ version (meta o3) = 4%nat.
Proof.
  apply (scenario_paper42 epoch_toISOString demo_client fresh_world).
  - reflexivity.
  - reflexivity.
  - reflexivity.
  - vm_compute. discriminate.
  - vm_compute. lia.
Defined.

(** Against the last part of C2 as stated: after the two updates [getObject]
    still returns the data written at creation, not the last payload. *)
Lemma scenario_paper42_counterexample :
  let w1 := (createObject epoch_toISOString demo_client "paper:42" paper_X []
               fresh_world).2 in
  let w2 := (updateObject epoch_toISOString demo_client "paper:42" paper_up w1).2 in
  let w3 := (updateObject epoch_toISOString demo_client "paper:42" paper_down w2).2 in
  on_result data (getObject demo_client "paper:42" w3).1 = inr paper_X
  ∧ paper_X ≠ paper_down.
Proof. split; [vm_compute; reflexivity|discriminate]. Qed.


(** On [stale_world] the fallback finds issue 2. *)
Example getObject_stale_entry_recovers :
  on_result (fun o => (issueNumber (meta o), data o))
            (getObject demo_client "a" stale_world).1
  = inr (2%nat, JObj [("owner", JStr "a")]).
Proof. vm_compute. reflexivity. Qed.


(** C7, at the comment whose body is the JSON text [null]: of the five
    comments of [legacy_world] the envelope, the bare initial state and the
    raw number are decoded; the raw [null] ends in a TypeError inside the
    [try] and is dropped like the remark that is no JSON. *)
Theorem history_skips_null_comment :
  (getObjectHistory demo_client "old" legacy_world).1
  = inr [HistoryEntry 10 (JStr "update") (Some (JNum 1)) 1;
         HistoryEntry 20 (JStr "initial_state") (Some (JNum 2)) 2;
         HistoryEntry 30 (JStr "update") (Some (JNum 3)) 3]
  ∧ decode_comment (Tracker.Comment 4 (JSONText JNull) 40 []) = inl TypeError
  ∧ decode_comment (Tracker.Comment 5 (OtherText "Looks good to me.") 50 [])
    = inl (SyntaxError "Looks good to me.").
Proof. vm_compute. done. Qed.

(** A client that has not read the object yet: the update is posted and the
    issue reopened, and the closing read, sent to the label query for closed
    issues, throws. *)
Example updateObject_cold_cache :
  let w1 := (createObject epoch_toISOString demo_client "paper:42" paper_X []
               fresh_world).2 in
  let cold := with_the_cache (IssueCache.clear (the_cache w1)) w1 in
  let r := updateObject epoch_toISOString demo_client "paper:42" paper_up cold in
  r.1 = inl (Error "No object found with ID: paper:42")
  ∧ (length <$> Tracker.list_comments 1 (tracker r.2)) = Some 2%nat
  ∧ (Tracker.state <$> Tracker.get_issue 1 (tracker r.2)) = Some Tracker.Open.
Proof. vm_compute. done. Qed.

(** An ID with a comma: the queries join the labels with commas and the
    service reads the parameter as a list, so the object just created under
    [a,b] is not found by [updateObject], nor by a [getObject] that does not
    go through the cache, while [getObject] of [a,b] returns the issue that
    carries the labels [UID:a] and [b]. *)
Example comma_in_the_ID :
  let w1 := (createObject epoch_toISOString demo_client "a,b" paper_X []
               fresh_world).2 in
  let cold := with_the_cache (IssueCache.clear (the_cache w1)) w1 in
  (updateObject epoch_toISOString demo_client "a,b" paper_up w1).1
  = inl (Error "No object found with ID: a,b")
  ∧ (getObject demo_client "a,b" cold).1 = inl (Error "No object found with ID: a,b")
  ∧ on_result (fun o => (issueNumber (meta o), data o))
      (getObject demo_client "a,b" split_label_world).1
    = inr (1%nat, JNum 1).
Proof. vm_compute. done. Qed.

(** The tracker answers the [since] query with both issues of
    [boundary_world]; the client keeps the one updated after the bound. *)
Example listUpdatedSince_boundary :
  length (Tracker.list_issues ["stored-object"] (Some Tracker.Closed) (Some 100)
            (tracker boundary_world)) = 2%nat
  ∧ (listUpdatedSince demo_client 100 boundary_world).1
    = inr {[ "late" := {| meta := {| objectId := "late"; label := "late";
                                     issueNumber := 2; createdAt := 0;
                                     updatedAt := 101; version := 1 |};
                          data := JNum 2 |} ]}.
Proof. vm_compute. done. Qed.

Lemma falsy_token_not_public_yet_rejected_witness :
  let this := Client (TokenString "") "owner/papers" default_config in
  isPublic this = false
  ∧ (∀ e t r w,
       createObject epoch_toISOString this e t r w
       = (inl (Error "Authentication required for creating objects"), w))
  ∧ (∀ e t w,
       updateObject epoch_toISOString this e t w
       = (inl (Error "Authentication required for updating objects"), w)).
Proof.
  intros this.
  apply (falsy_token_not_public_yet_rejected epoch_toISOString this).
  right. reflexivity.
Defined.

Lemma listAll_label_disagrees_witness :
  let w := (createObject epoch_toISOString demo_client "paper:42" paper_X []
              fresh_world).2 in
  ∃ res,
    listAll demo_client w = (inr res, w)
    ∧ ∀ id o, res !! id = Some o →
        label (meta o) = id
        ∧ (∃ s, s ∈ Tracker.issues (tracker w)
                ∧ issueNumber (meta o) = Tracker.number s
                ∧ uidPrefix (client_config demo_client) +:+ id ∈ Tracker.labels s)
        ∧ ∀ o' w1 w', getObject demo_client id w1 = (inr o', w') →
            label (meta o') = uidPrefix (client_config demo_client) +:+ id
            ∧ label (meta o') ≠ label (meta o).
Proof.
  intros w. apply (listAll_label_disagrees demo_client w). discriminate.
Defined.

(** The two read paths on the world that holds [paper:42]. *)
Example listAll_and_getObject_labels :
  let w := (createObject epoch_toISOString demo_client "paper:42" paper_X []
              fresh_world).2 in
  on_result (fun res => label ∘ meta <$> res !! "paper:42") (listAll demo_client w).1
  = inr (Some "paper:42")
  ∧ on_result (label ∘ meta) (getObject demo_client "paper:42" w).1
    = inr "UID:paper:42".
Proof. vm_compute. done. Qed.

(** Against C10 as stated, for a client configured with the empty [uidPrefix]:
    [listAll] files the object under its first label that is not the base
    label, [gh-store], and [getObject] of that ID reports the same label. *)
Lemma listAll_label_counterexample :
  let w := (createObject epoch_toISOString unprefixed_client "x" paper_X []
              fresh_world).2 in
  on_result (fun res => label ∘ meta <$> res !! "gh-store")
            (listAll unprefixed_client w).1
  = inr (Some "gh-store")
  ∧ on_result (label ∘ meta) (getObject unprefixed_client "gh-store" w).1
    = inr "gh-store".
Proof. vm_compute. done. Qed.

(** ** The cache under any run of calls *)

Module CacheOps.
Import IssueCache CacheFacts.

Lemma remove_first_spec (e x : string) (l : list string) :
  NoDup l → x ∈ remove_first e l ↔ x ∈ l ∧ x ≠ e.
Proof.
  induction l as [|y l IH]; intros Hnd; simpl; [set_solver|].
  apply NoDup_cons in Hnd as [Hy Hnd].
  destruct (String.eqb_spec y e) as [->|Hne].
  - split; [intros Hx; split; [set_solver|by intros ->]|set_solver].
  - rewrite elem_of_cons, (IH Hnd), elem_of_cons. naive_solver.
Qed.

Lemma remove_first_NoDup (e : string) (l : list string) :
  NoDup l → NoDup (remove_first e l).
Proof.
  induction l as [|y l IH]; intros Hnd; simpl; [done|].
  apply NoDup_cons in Hnd as [Hy Hnd].
  destruct (String.eqb_spec y e); [done|].
  apply NoDup_cons. split; [|by apply IH].
  rewrite remove_first_spec by done. tauto.
Qed.

Lemma wf_remove e c : cache_wf c → cache_wf (remove e c).
Proof.
  intros [Hnd Hdom]. split; simpl.
  - by apply remove_first_NoDup.
  - rewrite dom_delete_L, Hdom. apply set_eq. intros x.
    rewrite elem_of_difference, !elem_of_list_to_set, remove_first_spec by done.
    set_solver.
Qed.

Lemma wf_touch e v c :
  cache_wf c → cache_wf (updateAccessOrder e (with_cache (<[e := v]> (cache c)) c)).
Proof.
  intros [Hnd Hdom]. split; simpl.
  - apply NoDup_cons. split; [|by apply remove_first_NoDup].
    rewrite remove_first_spec by done. tauto.
  - rewrite dom_insert_L, Hdom. apply set_eq. intros x.
    rewrite !elem_of_union, !elem_of_singleton, !elem_of_list_to_set,
      remove_first_spec by done.
    destruct (decide (x = e)); naive_solver.
Qed.

Lemma set_unfold_evict now e n cr up c :
  set now e n cr up c
  = let c1 := if (maxSize c <=? Z.of_nat (size (cache c)))
                 && negb (bool_decide (is_Some (cache c !! e)))
              then match last (accessOrder c) with
                   | Some s => if truthy_string s then remove s c else c
                   | None => c
                   end
              else c in
    updateAccessOrder e (with_cache (<[e := Entry n now cr up]> (cache c1)) c1).
Proof. reflexivity. Qed.

Lemma wf_set now e n cr up c : cache_wf c → cache_wf (set now e n cr up c).
Proof.
  intros Hwf. rewrite set_unfold_evict. cbv zeta. apply wf_touch.
  destruct (_ && _); [|done].
  destruct (last _); [|done]. destruct (truthy_string _); [by apply wf_remove|done].
Qed.

Lemma wf_get now e c : cache_wf c → cache_wf (get now e c).2.
Proof.
  intros Hwf. unfold get. destruct (cache c !! e) as [ent|]; [|done].
  destruct (_ <? _); cbn [snd]; [by apply wf_remove|by apply wf_touch].
Qed.

Lemma wf_clear c : cache_wf (clear c).
Proof. split; simpl; [constructor|set_solver]. Qed.

Lemma wf_run_op c o : cache_wf c → cache_wf (run_op c o).
Proof.
  destruct o; simpl; auto using wf_get, wf_set, wf_remove, wf_clear.
Qed.

Lemma wf_run_ops ops c : cache_wf c → cache_wf (run_ops ops c).
Proof.
  revert c. induction ops as [|op ops IH]; intros c Hwf; [done|].
  cbn. apply IH. by apply wf_run_op.
Qed.

Lemma filter_other_notin (e : string) (l : list string) :
  e ∉ l → List.filter (fun x => negb (String.eqb x e)) l = l.
Proof.
  induction l as [|y l IH]; intros Hin; [done|]. cbn [List.filter].
  apply not_elem_of_cons in Hin as [Hne Hin].
  destruct (String.eqb_spec y e) as [->|_]; [done|]. cbn. by rewrite IH.
Qed.

(** Without duplicates, taking out the first occurrence of [e] leaves the
    other IDs, in their order. *)
Lemma remove_first_filter (e : string) (l : list string) :
  NoDup l → remove_first e l = List.filter (fun x => negb (String.eqb x e)) l.
Proof.
  induction l as [|y l IH]; intros Hnd; [done|]. cbn [remove_first List.filter].
  apply NoDup_cons in Hnd as [Hy Hnd].
  destruct (String.eqb_spec y e) as [->|_]; cbn.
  - by rewrite filter_other_notin.
  - by rewrite IH.
Qed.

Lemma filter_other_spec (e x : string) (l : list string) :
  x ∈ List.filter (fun x => negb (String.eqb x e)) l ↔ x ∈ l ∧ x ≠ e.
Proof.
  rewrite !list_elem_of_In, filter_In, negb_true_iff, String.eqb_neq. done.
Qed.

(** C6, on every cache the calls can lead to: an entry last accessed more
    than [ttl] ago is evicted by the next [get], which returns [undefined]:
    its ID leaves the map and the recency list, the other IDs keep their
    entries and their order, and a later [get] finds nothing, with no call of
    [remove]. A [get] of an entry not yet expired returns its issue number,
    stamps [lastAccessed] with the time of the call and moves the ID to the
    front of the recency list, ahead of the other IDs in their order, leaving
    the other entries alone. *)
Theorem get_ttl_expiry (o : options) (ops : list cache_op) (now : Z) (e : string)
    (ent : entry) :
  let c := run_ops ops (constructor o) in
  cache c !! e = Some ent →
  (ttl c < now - lastAccessed ent →
     (get now e c).1 = None
     ∧ (get now e c).2 = remove e c
     ∧ cache (get now e c).2 !! e = None
     ∧ (e ∉ accessOrder (get now e c).2)
     ∧ accessOrder (get now e c).2
       = List.filter (fun x => negb (String.eqb x e)) (accessOrder c)
     ∧ (∀ e', e' ≠ e → cache (get now e c).2 !! e' = cache c !! e')
     ∧ (∀ now', get now' e (get now e c).2 = (None, (get now e c).2)))
  ∧ (now - lastAccessed ent ≤ ttl c →
     (get now e c).1 = Some (issueNumber ent)
     ∧ cache (get now e c).2 !! e
       = Some (Entry (issueNumber ent) now (createdAt ent) (updatedAt ent))
     ∧ accessOrder (get now e c).2
       = e :: List.filter (fun x => negb (String.eqb x e)) (accessOrder c)
     ∧ (e ∉ List.filter (fun x => negb (String.eqb x e)) (accessOrder c))
     ∧ (∀ e', e' ≠ e → cache (get now e c).2 !! e' = cache c !! e')).
Proof.
  intros c Hent.
  assert (NoDup (accessOrder c)) as Hnd
    by (apply wf_run_ops, wf_constructor).
  unfold get. rewrite Hent. split; intros Hage.
  - destruct (Z.ltb_spec (ttl c) (now - lastAccessed ent)); [|lia]. simpl.
    rewrite remove_first_filter by done.
    repeat split; try done.
    + apply lookup_delete_eq.
    + rewrite filter_other_spec. tauto.
    + intros e' Hne. by apply lookup_delete_ne.
    + intros now'. simpl. by rewrite lookup_delete_eq.
  - destruct (Z.ltb_spec (ttl c) (now - lastAccessed ent)); [lia|]. simpl.
    rewrite remove_first_filter by done.
    repeat split; try done.
    + apply lookup_insert_eq.
    + rewrite filter_other_spec. tauto.
    + intros e' Hne. by apply lookup_insert_ne.
Qed.

Lemma get_ttl_expiry_witness :
  let c := run_ops [OpSet 0 "a" 7 0 0; OpSet 1 "b" 8 0 0]
             (constructor (Options None None)) in
  ((get 3600001 "a" c).1 = None
   ∧ cache (get 3600001 "a" c).2 !! "a" = None
   ∧ accessOrder (get 3600001 "a" c).2 = ["b"])
  ∧ ((get 3600000 "a" c).1 = Some 7%nat
     ∧ accessOrder (get 3600000 "a" c).2 = ["a"; "b"]).
Proof.
  intros c.
  assert (cache c !! "a" = Some (Entry 7 0 0 0)) as Hent by (vm_compute; reflexivity).
  split.
  - destruct (get_ttl_expiry (Options None None)
                [OpSet 0 "a" 7 0 0; OpSet 1 "b" 8 0 0] 3600001 "a" (Entry 7 0 0 0) Hent)
      as [Hold _].
    destruct Hold as (Hr & _ & Hgone & _ & Hrest & _); [vm_compute; reflexivity|].
    split; [exact Hr|]. split; [exact Hgone|exact Hrest].
  - destruct (get_ttl_expiry (Options None None)
                [OpSet 0 "a" 7 0 0; OpSet 1 "b" 8 0 0] 3600000 "a" (Entry 7 0 0 0) Hent)
      as [_ Hnew].
    destruct Hnew as (Hr & _ & Hfront & _); [vm_compute; discriminate|].
    split; [exact Hr|exact Hfront].
Defined.

(** X1, the cache's bookkeeping: after any run of [get], [set], [remove] and
    [clear] calls on a new cache, the recency list names no ID twice and names
    exactly the IDs that have an entry, so the number of entries is its
    length. *)
Theorem recency_list_lists_the_keys (o : options) (ops : list cache_op) :
  let c := run_ops ops (constructor o) in
  NoDup (accessOrder c)
  ∧ (∀ e, e ∈ accessOrder c ↔ is_Some (cache c !! e))
  ∧ size (cache c) = length (accessOrder c).
Proof.
  intros c.
  assert (cache_wf c) as Hwf.
  { unfold c, run_ops. generalize (wf_constructor o). generalize (constructor o).
    induction ops as [|op ops IH]; intros c0 H0; simpl; [done|].
    apply IH. by apply wf_run_op. }
  split; [apply Hwf|]. split; [|by apply wf_size].
  intros e. by rewrite (wf_lookup _ _ Hwf).
Qed.


Lemma remove_first_length_le (e : string) (l : list string) :
  (length (remove_first e l) ≤ length l)%nat.
Proof.
  induction l as [|y l IH]; simpl; [lia|].
  destruct (String.eqb y e); simpl; lia.
Qed.

Lemma remove_first_length_in (e : string) (l : list string) :
  e ∈ l → S (length (remove_first e l)) = length l.
Proof.
  induction l as [|y l IH]; simpl; [by intros ?%elem_of_nil|].
  destruct (String.eqb_spec y e) as [->|Hne]; [done|].
  intros [?|Hin]%elem_of_cons; [congruence|]. simpl. by rewrite IH.
Qed.

Lemma remove_first_subseteq (e : string) (l : list string) :
  remove_first e l ⊆ l.
Proof. intros x Hx. by eapply remove_first_elem. Qed.


Lemma bounded_remove e c : bounded c → bounded (remove e c).
Proof.
  intros [Hwf Hne Hlen]. split; [by apply wf_remove| |]; simpl.
  - intros Hin. by apply remove_first_elem in Hin.
  - pose proof (remove_first_length_le e (accessOrder c)). lia.
Qed.

Lemma bounded_get now e c : bounded c → bounded (get now e c).2.
Proof.
  intros Hb. pose proof Hb as [Hwf Hne Hlen].
  unfold get. destruct (cache c !! e) as [ent|] eqn:Hent; [|done].
  destruct (_ <? _); cbn [snd]; [by apply bounded_remove|].
  assert (e ∈ accessOrder c) as Hin by (apply (wf_lookup _ _ Hwf); eauto).
  split; [by apply wf_touch| |]; simpl.
  - intros [Heq|Hin']%elem_of_cons; [subst e; by apply Hne|].
    by apply remove_first_elem in Hin'.
  - pose proof (remove_first_length_in e _ Hin). lia.
Qed.

Lemma bounded_set now e n cr up c :
  1 ≤ maxSize c → e ≠ "" → bounded c → bounded (set now e n cr up c).
Proof.
  intros HM He Hb. pose proof Hb as [Hwf Hne Hlen].
  split; [by apply wf_set| |]; rewrite set_unfold_evict; cbv zeta.
  - simpl. intros [Heq|Hin]%elem_of_cons; [by apply He|].
    apply remove_first_elem in Hin.
    destruct (_ && _); [|done].
    destruct (last _); [|done]. destruct (truthy_string _); [|done].
    simpl in Hin. by apply remove_first_elem in Hin.
  - rewrite (wf_size _ Hwf).
    destruct (Z.leb_spec (maxSize c) (Z.of_nat (length (accessOrder c)))) as [Hfull|Hroom];
      cbn [andb].
    + destruct (cache c !! e) as [ent|] eqn:Hent.
      * rewrite bool_decide_eq_true_2 by eauto. cbn [negb]. simpl.
        assert (e ∈ accessOrder c) as Hin by (apply (wf_lookup _ _ Hwf); eauto).
        pose proof (remove_first_length_in e _ Hin). lia.
      * rewrite bool_decide_eq_false_2 by (by intros [? ?]). cbn [negb].
        destruct (last (accessOrder c)) as [a|] eqn:Hlast.
        2:{ apply last_None in Hlast. rewrite Hlast in Hfull. simpl in Hfull. lia. }
        apply last_Some in Hlast as [l Hao].
        assert (a ≠ "") as Hane.
        { intros Heq. subst a. apply Hne. rewrite Hao. set_solver. }
        unfold truthy_string. rewrite (eqb_false a "" Hane). cbn [negb].
        simpl. rewrite Hao.
        assert (a ∉ l) as Hal.
        { destruct Hwf as [Hnd _]. rewrite Hao in Hnd.
          apply NoDup_app in Hnd as (_ & Hd & _). intros Hin. apply (Hd _ Hin). set_solver. }
        rewrite remove_first_snoc by done.
        pose proof (remove_first_length_le e l).
        rewrite Hao, length_app in Hlen. simpl in *. lia.
    + simpl. pose proof (remove_first_length_le e (accessOrder c)). lia.
Qed.

Lemma maxSize_run_op c o : maxSize (run_op c o) = maxSize c.
Proof.
  destruct o; cbn [run_op]; try done.
  - unfold get. destruct (cache c !! e); [|done]. by destruct (_ <? _).
  - rewrite set_unfold_evict. cbv zeta. simpl.
    destruct (_ && _); [|done]. destruct (last _); [|done].
    by destruct (truthy_string _).
Qed.

Lemma maxSize_set now e n cr up c : maxSize (set now e n cr up c) = maxSize c.
Proof. apply (maxSize_run_op c (OpSet now e n cr up)). Qed.

Lemma bounded_run_op c o :
  1 ≤ maxSize c → sets_nonempty o → bounded c → bounded (run_op c o).
Proof.
  intros HM Ho Hb. destruct o; simpl.
  - by apply bounded_get.
  - by apply bounded_set.
  - by apply bounded_remove.
  - split; [apply wf_clear|simpl; set_solver|simpl; lia].
Qed.

Lemma bounded_run_ops ops c :
  1 ≤ maxSize c → Forall sets_nonempty ops → bounded c →
  bounded (run_ops ops c) ∧ maxSize (run_ops ops c) = maxSize c.
Proof.
  revert c. induction ops as [|o ops IH]; intros c HM Hops Hb; [done|].
  apply Forall_cons in Hops as [Ho Hops]. simpl.
  destruct (IH (run_op c o)) as [Hb' HM']; try done.
  - by rewrite maxSize_run_op.
  - by apply bounded_run_op.
  - split; [done|]. by rewrite HM', maxSize_run_op.
Qed.

(** X2, the bound: with [maxSize] at least 1 and no [set] of the empty ID,
    after any run of [get], [set], [remove] and [clear] calls on a new cache
    the cache holds at most [maxSize] entries, and no call changes
    [maxSize]. *)
Theorem size_never_exceeds_maxSize (o : options) (ops : list cache_op) :
  1 ≤ maxSize (constructor o) →
  Forall sets_nonempty ops →
  Z.of_nat (size (cache (run_ops ops (constructor o)))) ≤ maxSize (constructor o)
  ∧ maxSize (run_ops ops (constructor o)) = maxSize (constructor o).
Proof.
  intros HM Hops.
  destruct (bounded_run_ops ops (constructor o) HM Hops) as [[Hwf _ Hlen] HM'].
  { split; [apply wf_constructor|simpl; set_solver|simpl in *; lia]. }
  split; [|done]. rewrite (wf_size _ Hwf). lia.
Qed.




Lemma remove_first_keeps_split (x e : string) (l1 l2 : list string) :
  x ≠ e →
  ∃ l1' l2', remove_first x (l1 ++ e :: l2) = l1' ++ e :: l2'
             ∧ (length l1' ≤ length l1)%nat.
Proof.
  intros Hne. induction l1 as [|y l1 (l1' & l2' & Heq & Hlen)]; simpl.
  - rewrite eqb_false by congruence. by exists [], (remove_first x l2).
  - destruct (String.eqb y x).
    + exists l1, l2. split; [done|lia].
    + exists (y :: l1'), l2'. rewrite Heq. split; [done|simpl; lia].
Qed.

Lemma last_of_split (e : string) (l1 l2 : list string) :
  NoDup (l1 ++ e :: l2) → last (l1 ++ e :: l2) = Some e → l2 = [].
Proof.
  intros Hnd Hlast. destruct l2 as [|b l2] using rev_ind; [done|]. exfalso.
  rewrite app_comm_cons, app_assoc, last_snoc in Hlast. injection Hlast as ->.
  apply NoDup_app in Hnd as (_ & _ & Hnd). apply NoDup_cons in Hnd as [Hnd _].
  apply Hnd. set_solver.
Qed.


Lemma ahead_set e v j c now e' n cr up :
  e' ≠ e → Z.of_nat j + 1 < maxSize c → ahead e v j c →
  ahead e v (S j) (set now e' n cr up c).
Proof.
  intros Hne Hj [Hwf Hv (l1 & l2 & Hao & Hlen)].
  split; [by apply wf_set| |]; rewrite set_unfold_evict; cbv zeta; simpl.
  - rewrite lookup_insert_ne by done.
    destruct (_ && _) eqn:Hcond; [|done].
    destruct (last (accessOrder c)) as [s|] eqn:Hlast; [|done].
    destruct (truthy_string s); [|done]. simpl.
    rewrite lookup_delete_ne; [done|]. intros ->.
    apply andb_true_iff in Hcond as [Hfull%Z.leb_le _].
    rewrite (wf_size _ Hwf), Hao, length_app in Hfull. simpl in Hfull.
    rewrite Hao in Hlast. destruct Hwf as [Hnd _]. rewrite Hao in Hnd.
    rewrite (last_of_split e l1 l2 Hnd Hlast) in Hfull. simpl in Hfull. lia.
  - assert (∃ l1' l2', accessOrder
              (if (maxSize c <=? Z.of_nat (size (cache c)))
                  && negb (bool_decide (is_Some (cache c !! e')))
               then match last (accessOrder c) with
                    | Some s => if truthy_string s then remove s c else c
                    | None => c
                    end
               else c) = l1' ++ e :: l2' ∧ (length l1' ≤ j)%nat)
      as (l1' & l2' & Hao1 & Hlen1).
    { destruct (_ && _) eqn:Hcond; [|by exists l1, l2].
      destruct (last (accessOrder c)) as [s|] eqn:Hlast; [|by exists l1, l2].
      destruct (truthy_string s); [|by exists l1, l2]. simpl. rewrite Hao.
      destruct (remove_first_keeps_split s e l1 l2) as (l1' & l2' & Heq & Hl).
      - intros ->.
        apply andb_true_iff in Hcond as [Hfull%Z.leb_le _].
        rewrite (wf_size _ Hwf), Hao, length_app in Hfull. simpl in Hfull.
        rewrite Hao in Hlast. destruct Hwf as [Hnd _]. rewrite Hao in Hnd.
        rewrite (last_of_split e l1 l2 Hnd Hlast) in Hfull. simpl in Hfull. lia.
      - exists l1', l2'. split; [done|lia]. }
    rewrite Hao1.
    destruct (remove_first_keeps_split e' e l1' l2' Hne) as (l1'' & l2'' & Heq & Hl).
    exists (e' :: l1''), l2''. rewrite Heq. split; [done|simpl; lia].
Qed.

Lemma ahead_run_sets e v (others : list set_call) :
  Forall (fun x => key x ≠ e) others →
  ∀ j c, Z.of_nat (j + length others) < maxSize c → ahead e v j c →
         ahead e v (j + length others) (run_sets others c)
         ∧ ttl (run_sets others c) = ttl c.
Proof.
  induction 1 as [|x others Hx Hothers IH]; intros j c Hj Ha; simpl.
  - by rewrite Nat.add_0_r.
  - destruct (IH (S j) (set (at_time x) (key x) (target x) (created x) (updated x) c))
      as [Ha' Httl].
    + rewrite maxSize_set. simpl in Hj. lia.
    + apply ahead_set; [done| |done]. simpl in Hj. lia.
    + replace (j + S (length others))%nat with (S j + length others)%nat by lia.
      split; [done|]. by rewrite Httl, set_ttl.
Qed.

(** X4, insert then look up: an entry [set] at [now] is still there after
    fewer than [maxSize] later [set] calls of other IDs, and a [get] no later
    than [ttl] after [now] returns its issue number. *)
Theorem set_survives_other_sets (c : t) (now : Z) (e : string) (n : nat)
    (cr up : Z) (others : list set_call) (now' : Z) :
  cache_wf c →
  Forall (fun x => key x ≠ e) others →
  Z.of_nat (length others) < maxSize c →
  now' - now ≤ ttl c →
  (get now' e (run_sets others (set now e n cr up c))).1 = Some n.
Proof.
  intros Hwf Hothers Hlen Hlive.
  destruct (ahead_run_sets e (Entry n now cr up) others Hothers 0
              (set now e n cr up c)) as [[_ Hv _] Httl].
  - rewrite maxSize_set. simpl. lia.
  - split; [by apply wf_set|apply set_lookup|].
    exists [], (remove_first e
                  (accessOrder
                     (if (maxSize c <=? Z.of_nat (size (cache c)))
                         && negb (bool_decide (is_Some (cache c !! e)))
                      then match last (accessOrder c) with
                           | Some s => if truthy_string s then remove s c else c
                           | None => c
                           end
                      else c))).
    split; [by rewrite set_unfold_evict|simpl; lia].
  - simpl in Hv. unfold get. rewrite Hv. cbn [lastAccessed issueNumber].
    rewrite Httl, set_ttl.
    by destruct (Z.ltb_spec (ttl c) (now' - now)); [lia|].
Qed.

End CacheOps.

(** ** The client: payloads, labels, reads and listings *)

(** X5, the comment payload round trip: what [createCommentPayload] makes of
    data [d], once stringified into a comment body, is decoded by the history
    decoder to the data [d] and the type the payload was made with, [update]
    when none (or the empty string) was given. The call itself never throws
    and changes nothing. *)
Theorem payload_round_trip (toISOString : Z → string) (d : json) (n : nat)
    (ty : option string) (w : world) (cid : nat) (posted : Z) (rs : list string) :
  ∃ p,
    createCommentPayload toISOString d n ty w = (inr p, w)
    ∧ decode_comment (Tracker.Comment cid (JSON_stringify p) posted rs)
      = inr (HistoryEntry posted (JStr (payload_type ty)) (Some d) cid).
Proof.
  eexists. split; [reflexivity|].
  destruct ty as [[|a t]|]; reflexivity.
Qed.

Lemma prefix_append (p s : string) : String.prefix p (p +:+ s) = true.
Proof.
  induction p as [|a p IH]; [change ("" +:+ s) with s; by destruct s|].
  change (String a p +:+ s) with (String a (p +:+ s)). simpl.
  by destruct (Ascii.ascii_dec a a).
Qed.

Lemma substring_append (p s : string) :
  String.substring (String.length p) (String.length (p +:+ s) - String.length p)
                   (p +:+ s) = s.
Proof.
  rewrite length_append. replace (String.length p + String.length s - String.length p)%nat
    with (String.length s) by lia.
  induction p as [|a p IH]; [apply substring_all|].
  change (String a p +:+ s) with (String a (p +:+ s)). simpl. exact IH.
Qed.

Section LabelFacts.
Variable this : client.
Let cfg := client_config this.

Lemma passed_over_step (t : string) (rest : list string) :
  passed_over this t →
  _getObjectIdFromLabels_loop this (t :: rest) = _getObjectIdFromLabels_loop this rest.
Proof.
  unfold passed_over. fold cfg.
  intros [->|Hp]; cbn [_getObjectIdFromLabels_loop]; fold cfg.
  - by rewrite String.eqb_refl.
  - by rewrite Hp, andb_false_r.
Qed.

Lemma labels_passed_over (pre rest : list string) :
  Forall (passed_over this) pre →
  _getObjectIdFromLabels_loop this (pre ++ rest) = _getObjectIdFromLabels_loop this rest.
Proof.
  induction 1 as [|t pre Ht Hpre IH]; [done|].
  cbn [app]. by rewrite passed_over_step.
Qed.

Lemma uid_label_found (post : list string) (e : string) :
  uidPrefix cfg +:+ e ≠ baseLabel cfg →
  _getObjectIdFromLabels_loop this ((uidPrefix cfg +:+ e) :: post) = inr e.
Proof.
  intros Hne. cbn [_getObjectIdFromLabels_loop]. fold cfg.
  rewrite prefix_append, substring_append.
  by rewrite (proj2 (String.eqb_neq _ _) Hne).
Qed.

(** X6, [_getObjectIdFromLabels]: labels that are the base label or lack the
    UID prefix are passed over, so a list of only such labels throws
    [No UID label found with prefix ...], and the ID returned is that of the
    first label with the prefix that is not the base label, whatever follows
    it. *)
Theorem _getObjectIdFromLabels_first_uid (pre post : list string) (e : string) :
  Forall (passed_over this) pre →
  _getObjectIdFromLabels_loop this pre
  = inl (Error ("No UID label found with prefix " +:+ uidPrefix cfg))
  ∧ (uidPrefix cfg +:+ e ≠ baseLabel cfg →
     _getObjectIdFromLabels_loop this (pre ++ (uidPrefix cfg +:+ e) :: post) = inr e).
Proof.
  intros Hpre. split.
  - rewrite <- (app_nil_r pre) at 1. by rewrite labels_passed_over.
  - intros Hne. rewrite labels_passed_over by done. by apply uid_label_found.
Qed.
End LabelFacts.

Lemma with_the_cache_same (w : world) : with_the_cache (the_cache w) w = w.
Proof. by destruct w. Qed.

Lemma filter_matches_nil (ls : list string) (st : option Tracker.issue_state)
    (since : option Z) (l : list Tracker.issue) (lab : string) :
  lab ∈ ls → (∀ i, i ∈ l → lab ∉ Tracker.labels i) →
  List.filter (Tracker.matches ls st since) l = [].
Proof.
  intros Hlab Hnone. induction l as [|i l IH]; [done|]. simpl.
  rewrite IH by (intros j Hj; apply Hnone; set_solver).
  destruct (Tracker.matches ls st since i) eqn:Hm; [|done]. exfalso.
  unfold Tracker.matches in Hm.
  apply andb_true_iff in Hm as [Hm _]. apply andb_true_iff in Hm as [Hm _].
  rewrite forallb_forall in Hm. specialize (Hm lab (proj1 (list_elem_of_In _ _) Hlab)).
  apply has_label_true in Hm. apply (Hnone i); [set_solver|done].
Qed.

Section ReadFacts.
Variable toISOString : Z → string.
Variable this : client.
Let cfg := client_config this.

(** X7, the unknown ID: with an ID label without a comma (the queries join
    the labels with commas, and the service splits them at every comma), no
    cache entry for [e] and no issue carrying its ID label, [getObject] and
    [getObjectHistory] throw [No object found with ID: e], and so does
    [updateObject] when a token is configured; none of them changes the
    cache or the tracker. *)
Theorem unknown_id_not_found (e : string) (w : world) :
  has_comma (idLabel this e) = false →
  IssueCache.cache (the_cache w) !! e = None →
  (∀ i, i ∈ Tracker.issues (tracker w) → idLabel this e ∉ Tracker.labels i) →
  getObject this e w = (inl (Error ("No object found with ID: " +:+ e)), w)
  ∧ getObjectHistory this e w = (inl (Error ("No object found with ID: " +:+ e)), w)
  ∧ (token_truthy (client_token this) = true →
     ∀ d, updateObject toISOString this e d w
          = (inl (Error ("No object found with ID: " +:+ e)), w)).
Proof.
  intros Hic Hmiss Hnone.
  assert (∀ ls st, idLabel this e ∈ ls →
            Tracker.list_issues ls st None (tracker w) = []) as Hq.
  { intros ls st Hin. unfold Tracker.list_issues.
    rewrite (filter_matches_nil ls st None _ (idLabel this e)) by done.
    by destruct (Tracker.per_page _). }
  repeat split.
  - unfold getObject. unfold bind at 1. unfold getObject_cached, bind at 1, cache_get.
    unfold IssueCache.get. rewrite Hmiss. rewrite with_the_cache_same. unfold ret.
    unfold bind at 1. unfold getObject_query, bind at 1, GET_issues.
    by rewrite Hq by (apply labels_param_join_elem; [set_solver|done]).
  - unfold getObjectHistory, bind, GET_issues.
    by rewrite Hq by (apply labels_param_join_elem; [set_solver|done]).
  - intros Htok d. unfold updateObject. rewrite Htok. cbn [negb].
    unfold bind, GET_issues.
    by rewrite Hq by (apply labels_param_join_elem; [set_solver|done]).
Qed.

Lemma getObject_assemble_frame (e : string) (r : Tracker.issue) (w : world) :
  tracker (getObject_assemble this e r w).2 = tracker w
  ∧ clock (getObject_assemble this e r w).2 = clock w.
Proof.
  unfold getObject_assemble. destruct (body_falsy _); [done|].
  unfold bind at 1 3. unfold lift.
  destruct (JSON_parse_body _) as [x|s]; [done|].
  unfold bind at 1 3. unfold cache_set. unfold bind, _getVersion, bind, GET_comments, answer.
  cbn. by destruct (Tracker.list_comments _ _).
Qed.

Lemma getObject_cached_frame (e : string) (w : world) :
  tracker (getObject_cached this e w).2 = tracker w
  ∧ clock (getObject_cached this e w).2 = clock w.
Proof.
  unfold getObject_cached, bind, cache_get.
  destruct (IssueCache.get (clock w) e (the_cache w)) as [[[|n]|] c]; try done.
  unfold catch, GET_issue, answer. cbn.
  destruct (Tracker.get_issue (S n) (tracker w)) as [r|]; cbn; [|done].
  by destruct (_verifyIssueLabels this r e).
Qed.

(** X8, reads do not write: whatever [getObject] returns or throws, the
    tracker and the clock are as before (only the cache may change), and
    [getObjectHistory] changes nothing at all. *)
Theorem reads_leave_the_tracker (e : string) (w : world) :
  tracker (getObject this e w).2 = tracker w
  ∧ clock (getObject this e w).2 = clock w
  ∧ (getObjectHistory this e w).2 = w.
Proof.
  split; [|split].
  1,2: unfold getObject; unfold bind at 1;
    pose proof (getObject_cached_frame e w) as [Ht Hc];
    destruct (getObject_cached this e w) as [[x|r] w1]; cbn in Ht, Hc; [done|];
    unfold bind at 1;
    assert (∀ o w2, match r with Some r0 => ret r0 | None => getObject_query this e end w1
                    = (o, w2) → w2 = w1) as Hq
      by (intros o w2; destruct r as [r0|];
          [unfold ret; by intros [= <- <-]
          |unfold getObject_query, bind, GET_issues;
           destruct (Tracker.list_issues _ _ _ _); unfold ret, throw; by intros [= <- <-]]);
    destruct (match r with Some r0 => ret r0 | None => getObject_query this e end w1)
      as [[x|r'] w2] eqn:Hr; rewrite (Hq _ _ eq_refl); [done|];
    destruct (getObject_assemble_frame e r' w1) as [Ht' Hc']; congruence.
  unfold getObjectHistory, bind, GET_issues.
  destruct (Tracker.list_issues _ _ _ _) as [|r rest]; [done|].
  unfold GET_comments, answer.
  destruct (Tracker.list_comments _ _); cbn; [apply with_tracker_same|done].
Qed.
End ReadFacts.

Section ListingFacts.
Variable toISOString : Z → string.
Variable this : client.
Let cfg := client_config this.

(** One turn of the loop of [listAll] either leaves the result alone or files
    the object of the issue under the ID its labels give. *)
Lemma listAll_turn (r : Tracker.issue) (t : gmap string StoredObject) (w : world) :
  catch (listAll_step this r t) (ret t) w = (inr t, w)
  ∨ ∃ s o, _getObjectIdFromLabels this r = inr s
           ∧ catch (listAll_step this r t) (ret t) w = (inr (assign s o t), w).
Proof.
  unfold catch, listAll_step. unfold bind at 1. unfold lift.
  destruct (_getObjectIdFromLabels this r) as [x|s] eqn:Hid; [by left|].
  unfold bind at 1.
  destruct (JSON_parse_body (Tracker.body r)) as [x|i]; [by left|].
  unfold bind.
  pose proof (_getVersion_world (Tracker.number r) w) as Hw.
  destruct (_getVersion (Tracker.number r) w) as [[x|v] w1]; cbn in Hw; subst w1;
    [by left|].
  right. eexists s, _. split; [done|reflexivity].
Qed.

Lemma listAll_loop_frame (e : string) (l : list Tracker.issue) :
  (∀ i, i ∈ l → _getObjectIdFromLabels this i ≠ inr e) →
  ∀ (t : gmap string StoredObject) (w : world),
    ∃ res, listAll_loop this l t w = (inr res, w) ∧ res !! e = t !! e.
Proof.
  induction l as [|r l IH]; intros Hl t w; [by exists t|].
  cbn [listAll_loop].
  destruct (is_archived r); [apply IH; intros; apply Hl; set_solver|].
  unfold bind.
  destruct (listAll_turn r t w) as [Hc|(s & o & Hs & Hc)]; rewrite Hc.
  - apply IH. intros; apply Hl; set_solver.
  - destruct (IH (fun i Hi => Hl i (list_elem_of_further _ _ _ Hi)) (assign s o t) w)
      as (res & Hres & Hlook).
    exists res. split; [done|]. rewrite Hlook. unfold assign.
    destruct (String.eqb s "__proto__"); [done|].
    apply lookup_insert_ne. intros ->. apply (Hl r); [set_solver|done].
Qed.

(** X9, create then list: for a client with the default configuration and a
    token, after [createObject] of a new ID without the [archived] label,
    [listAll] holds the object under its ID, with the data written, the issue
    number and creation time [createObject] reported, and version 2 (the
    initial-state comment counted); the listing changes nothing. The ID
    [__proto__] is left aside: it is no own key of the result object. *)
Theorem listAll_after_createObject (e : string) (t : json) (r : list string)
    (w : world) :
  client_config this = default_config →
  token_truthy (client_token this) = true →
  (1 ≤ Tracker.per_page (tracker w))%nat →
  e ≠ "__proto__" →
  "archived" ∉ r →
  (∀ i, i ∈ Tracker.issues (tracker w) → "UID:" +:+ e ∉ Tracker.labels i) →
  ∃ o w1 res,
    createObject toISOString this e t r w = (inr o, w1)
    ∧ listAll this w1 = (inr res, w1)
    ∧ res !! e
      = Some {| meta := {| objectId := e; label := e;
                           issueNumber := issueNumber (meta o);
                           createdAt := createdAt (meta o);
                           updatedAt := clock w; version := 2 |};
                data := t |}.
Proof.
  intros Hcfg Htok Hpage He Harch Hnew.
  pose proof (createObject_ok toISOString this e t r w Htok) as Hc.
  set (w1 := World _ _ _) in Hc. set (i := created_issue toISOString this e t r w).
  assert (_getObjectIdFromLabels this i = inr e) as Hid.
  { unfold _getObjectIdFromLabels, i. cbn [created_issue Tracker.labels].
    change (_getObjectIdFromLabels_loop this
              (["gh-store"; baseLabel (client_config this)] ++ idLabel this e :: r)
            = inr e).
    rewrite (labels_passed_over this ["gh-store"; baseLabel (client_config this)]).
    - unfold idLabel. apply uid_label_found. rewrite Hcfg. cbn. discriminate.
    - apply Forall_cons. split; [right; by rewrite Hcfg|].
      apply Forall_cons. split; [by left|constructor]. }
  assert (is_archived i = false) as Hnarch.
  { unfold is_archived, i. cbn [created_issue Tracker.labels].
    apply not_true_is_false. intros (x & Hin & Heq)%existsb_exists.
    apply String.eqb_eq in Heq. subst x. apply list_elem_of_In in Hin.
    unfold idLabel in Hin. rewrite Hcfg in Hin. cbn in Hin.
    apply elem_of_cons in Hin as [Hin|Hin]; [discriminate|].
    apply elem_of_cons in Hin as [Hin|Hin]; [discriminate|].
    apply elem_of_cons in Hin as [Hin|Hin]; [discriminate|done]. }
  set (o := {| meta := {| objectId := e; label := e;
                          issueNumber := S (Tracker.last_number (tracker w));
                          createdAt := clock w; updatedAt := clock w;
                          version := 2 |};
               data := t |}).
  assert (catch (listAll_step this i ∅) (ret ∅) w1 = (inr (assign e o ∅), w1)) as Hturn.
  { unfold catch, listAll_step. unfold bind at 1. unfold lift. rewrite Hid.
    unfold bind at 1. cbn [JSON_parse_body Tracker.body i created_issue JSON_parse].
    unfold bind, _getVersion, bind, GET_comments, answer, Tracker.list_comments,
      Tracker.get_issue, ret.
    cbn. rewrite Nat.eqb_refl. cbn.
    rewrite length_take. cbn [length].
    replace (Tracker.per_page (tracker w) `min` 1)%nat with 1%nat by lia. done. }
  destruct (listAll_loop_frame e
              (take (Tracker.per_page (tracker w) - 1)
                 (List.filter (Tracker.matches [baseLabel (client_config this)]
                                 (Some Tracker.Closed) None)
                              (Tracker.issues (tracker w)))))
    with (t := assign e o ∅) (w := w1) as (res & Hres & Hlook).
  { intros j Hj Hidj. apply subseteq_take in Hj.
    apply list_elem_of_In, filter_In in Hj as [Hj _]. apply list_elem_of_In in Hj.
    apply _getObjectIdFromLabels_loop_label in Hidj as [Hlab _].
    apply (Hnew j Hj). by rewrite Hcfg in Hlab. }
  eexists _, w1, res. split; [exact Hc|]. split.
  - unfold listAll. unfold bind at 1. unfold GET_issues.
    assert (Tracker.labels_param (baseLabel (client_config this))
            = [baseLabel (client_config this)]) as -> by (by rewrite Hcfg).
    unfold Tracker.list_issues.
    assert (Tracker.issues (tracker w1) = i :: Tracker.issues (tracker w)) as -> by done.
    cbn [List.filter].
    assert (Tracker.matches [baseLabel (client_config this)] (Some Tracker.Closed) None i
            = true) as ->.
    { unfold Tracker.matches. cbn [forallb]. rewrite has_label_elem; [done|].
      unfold i. cbn. set_solver. }
    assert (Tracker.per_page (tracker w1) = Tracker.per_page (tracker w)) as -> by done.
    destruct (Tracker.per_page (tracker w)) as [|p] eqn:Hp; [lia|]. cbn [take].
    cbn [listAll_loop]. rewrite Hnarch. unfold bind at 1. rewrite Hturn.
    rewrite <- Hres. by rewrite Nat.sub_succ, Nat.sub_0_r.
  - rewrite Hlook. unfold assign. rewrite (proj2 (String.eqb_neq _ _) He).
    by rewrite lookup_insert_eq.
Qed.
End ListingFacts.


Section UpdateFacts.
Variable toISOString : Z → string.
Variable this : client.
Let cfg := client_config this.

(** After [updateObject] the backing issue is open and the issues behind it
    are as they were. *)
Lemma updateObject_reopens (e : string) (n : nat) (v : json)
    (hs : list (json * option json)) (w : world) (dt : Z) (d : json) :
  token_truthy (client_token this) = true →
  backed this e n v hs w →
  dt ≤ IssueCache.ttl (the_cache w) →
  (length hs + 1 ≤ Tracker.per_page (tracker w))%nat →
  ∃ o w' i',
    updateObject toISOString this e d (advance dt w) = (inr o, w')
    ∧ Tracker.issues (tracker w') = i' :: tail (Tracker.issues (tracker w))
    ∧ Tracker.state i' = Tracker.Open
    ∧ Tracker.per_page (tracker w') = Tracker.per_page (tracker w).
Proof.
  intros Htok [i rest ent Hiss Hnum Hbase Hid Hbc Hic Hbody Hk Hhs Hent Htgt Htouch] Hdt Hpage.
  unfold updateObject. rewrite Htok. cbn [negb].
  unfold bind at 1. rewrite GET_issues_two by done. unfold Tracker.list_issues.
  cbn [tracker advance]. rewrite Hiss. cbn [List.filter].
  assert (Tracker.matches [baseLabel (client_config this); idLabel this e] None None i = true)
    as ->.
  { unfold Tracker.matches. cbn [forallb]. by rewrite !has_label_elem. }
  destruct (Tracker.per_page (tracker w)) as [|p] eqn:Hp; [lia|]. cbn [take].
  unfold bind at 1. unfold createCommentPayload, bind at 1, Date_now, ret.
  unfold bind at 1. unfold POST_comments, answer, Tracker.post_comment.
  cbn [tracker advance clock]. rewrite Hiss. cbn [Tracker.alter_issue].
  rewrite Nat.eqb_refl.
  unfold bind at 1. unfold PATCH_issue, answer, Tracker.patch_state.
  cbn [tracker with_tracker Tracker.issues Tracker.alter_issue Tracker.number].
  rewrite Nat.eqb_refl. cbn [Tracker.number Tracker.title Tracker.body Tracker.labels
    Tracker.state Tracker.created_at Tracker.updated_at Tracker.comments
    with_tracker the_cache clock].
  set (c := Tracker.Comment _ _ _ _).
  set (i2 := Tracker.Issue _ _ _ _ _ _ _ _).
  unfold with_tracker, Tracker.with_issues, advance.
  cbn [the_cache tracker clock Tracker.last_number Tracker.last_comment_id
       Tracker.per_page Tracker.issues].
  set (w2 := World _ _ _).
  assert (Tracker.get_issue (S n) (tracker w2) = Some i2) as Hget.
  { unfold Tracker.get_issue, w2. cbn. by rewrite Hnum, Nat.eqb_refl. }
  erewrite (getObject_hit this e ent n i2 v w2); try done.
  - eexists _, _, i2. split; [reflexivity|]. cbn. by rewrite Hp.
  - unfold w2. cbn. lia.
  - by apply verify_base.
Qed.

End UpdateFacts.

(** ** Source integrations *)

Lemma append_assoc (a b c : string) : (a +:+ b) +:+ c = a +:+ (b +:+ c).
Proof.
  induction a as [|x a IH]; [done|].
  change (String x a +:+ b) with (String x (a +:+ b)).
  change (String x (a +:+ b) +:+ c) with (String x ((a +:+ b) +:+ c)).
  change (String x a +:+ (b +:+ c)) with (String x (a +:+ (b +:+ c))).
  by rewrite IH.
Qed.

Lemma prefix_append_cancel (a x y : string) :
  String.prefix (a +:+ x) (a +:+ y) = String.prefix x y.
Proof.
  induction a as [|c a IH]; [done|].
  change (String c a +:+ x) with (String c (a +:+ x)).
  change (String c a +:+ y) with (String c (a +:+ y)).
  simpl. by destruct (Ascii.ascii_dec c c).
Qed.

Lemma prefix_append_self (a x : string) :
  String.prefix (a +:+ x) a = String.prefix x "".
Proof.
  induction a as [|c a IH]; [done|].
  change (String c a +:+ x) with (String c (a +:+ x)).
  simpl. by destruct (Ascii.ascii_dec c c).
Qed.

Module SourceFacts.
Import Sources.

Lemma substring_from_append (p s : string) :
  substring_from (String.length p) (p +:+ s) = s.
Proof. apply substring_append. Qed.

(** X11, the identifier round trip of a source integration: [parsePaperId]
    gives back the paper ID that [formatPaperId] formatted, reads the legacy
    form [id:paperId] the same way, and returns [null] for the bare source
    ID. *)
Theorem parsePaperId_formatPaperId (this : source) (paperId : string) :
  parsePaperId this (formatPaperId this paperId) = Some paperId
  ∧ parsePaperId this (id this +:+ ":" +:+ paperId) = Some paperId
  ∧ parsePaperId this (id this) = None.
Proof.
  unfold parsePaperId, formatPaperId. repeat split.
  - rewrite <- append_assoc, prefix_append. by rewrite substring_from_append.
  - rewrite prefix_append_cancel.
    assert (String.prefix "." (":" +:+ paperId) = false) as -> by done.
    rewrite <- append_assoc, prefix_append. by rewrite substring_from_append.
  - by rewrite !prefix_append_self.
Qed.

End SourceFacts.

Module ManagerFacts.
Import SourceIntegrationManager.


Lemma keyed_registerSource s m : keyed m → keyed (registerSource s m).
Proof.
  intros Hm k s'. unfold registerSource.
  destruct (decide (Sources.id s = k)) as [<-|Hne].
  - rewrite lookup_insert_eq. by intros [= <-].
  - rewrite lookup_insert_ne by done. apply Hm.
Qed.

Lemma keyed_fold (l : list Sources.source) (m : t) :
  keyed m → keyed (fold_left (fun m s => registerSource s m) l m).
Proof.
  revert m. induction l as [|s l IH]; intros m Hm; [done|].
  simpl. apply IH. by apply keyed_registerSource.
Qed.

(** X12, the manager's identifiers: in a manager built by [registerSource]
    calls, [formatObjectId] gives [type:sourceId.paperId] and [formatPaperId]
    gives [sourceId.paperId], whether the source ID is registered or not:
    the fallback and the integrations agree. *)
Theorem formatObjectId_whether_registered (l : list Sources.source)
    (type sourceId paperId : string) :
  let m := fold_left (fun m s => registerSource s m) l constructor in
  formatObjectId type sourceId paperId m = type +:+ ":" +:+ sourceId +:+ "." +:+ paperId
  ∧ formatPaperId sourceId paperId m = sourceId +:+ "." +:+ paperId.
Proof.
  intros m.
  assert (keyed m) as Hk.
  { apply keyed_fold. intros k s. unfold constructor. by rewrite lookup_empty. }
  unfold formatObjectId, formatPaperId.
  destruct (m !! sourceId) as [s|] eqn:Hs; [|done].
  unfold Sources.formatObjectId, Sources.formatPaperId. by rewrite (Hk _ _ Hs).
Qed.

End ManagerFacts.

(** ** Paper IDs from URLs *)

Module HashFacts.

Lemma toInt32_range (z : Z) : - 2 ^ 31 ≤ toInt32 z < 2 ^ 31.
Proof. unfold toInt32. pose proof (Z.mod_pos_bound (z + 2 ^ 31) (2 ^ 32)). lia. Qed.

Lemma toInt32_mod (z : Z) : toInt32 z mod 2 ^ 32 = z mod 2 ^ 32.
Proof.
  unfold toInt32. rewrite Zminus_mod_idemp_l. f_equal. lia.
Qed.

Lemma toInt32_congr (a b : Z) : a mod 2 ^ 32 = b mod 2 ^ 32 → toInt32 a = toInt32 b.
Proof.
  intros H. unfold toInt32. f_equal.
  rewrite <- (Zplus_mod_idemp_l a), <- (Zplus_mod_idemp_l b). by rewrite H.
Qed.

Lemma hash_step_polynomial (h h' c : Z) :
  h mod 2 ^ 32 = h' mod 2 ^ 32 →
  hash_step h c = toInt32 (31 * h' + c).
Proof.
  intros Hh. unfold hash_step. apply toInt32_congr.
  rewrite <- Zplus_mod_idemp_l, <- Zminus_mod_idemp_l, toInt32_mod.
  rewrite <- Zmult_mod_idemp_l, toInt32_mod, Zmult_mod_idemp_l.
  rewrite Zminus_mod_idemp_l, Zplus_mod_idemp_l.
  replace (h * 2 ^ 5 - h + c) with (31 * h + c) by lia.
  rewrite <- Zplus_mod_idemp_l, <- Zmult_mod_idemp_r, Hh, Zmult_mod_idemp_r.
  by rewrite Zplus_mod_idemp_l.
Qed.

Lemma hash_loop_polynomial (url : list Z) :
  ∀ h h', h mod 2 ^ 32 = h' mod 2 ^ 32 → - 2 ^ 31 ≤ h < 2 ^ 31 →
          hash_loop url h = toInt32 (polynomial url h').
Proof.
  induction url as [|c url IH]; intros h h' Hh Hr; simpl.
  - unfold polynomial. simpl. rewrite <- (toInt32_congr _ _ Hh).
    unfold toInt32. rewrite Z.mod_small by lia. lia.
  - apply IH.
    + rewrite (hash_step_polynomial h h' c Hh). apply toInt32_mod.
    + apply toInt32_range.
Qed.

Lemma hash_loop_range (url : list Z) : - 2 ^ 31 ≤ hash_loop url 0 < 2 ^ 31.
Proof.
  rewrite (hash_loop_polynomial url 0 0) by (done || lia). apply toInt32_range.
Qed.

(** X13, the URL hash: the loop of [generatePaperIdFromUrl] computes the
    polynomial hash with multiplier 31 of the code units, wrapped to a signed
    32-bit integer. *)
Theorem hash_is_wrapped_polynomial (url : list Z) :
  hash_loop url 0 = toInt32 (polynomial url 0)
  ∧ - 2 ^ 31 ≤ hash_loop url 0 < 2 ^ 31.
Proof.
  split; [apply hash_loop_polynomial; [done|lia]|apply hash_loop_range].
Qed.

Lemma hex_digit_upper (d : Z) : is_upper_hex (hex_digit d).
Proof.
  unfold is_upper_hex, hex_digit.
  destruct (Z.to_nat d) as [|[|[|[|[|[|[|[|[|[|[|[|[|[|[|[|n]]]]]]]]]]]]]]]];
    apply list_elem_of_In; cbn; try (destruct n; cbn); auto 20.
Qed.

Lemma string_forall_append (P : Ascii.ascii → Prop) (a b : string) :
  string_forall P a → string_forall P b → string_forall P (a +:+ b).
Proof.
  induction a as [|c a IH]; [done|]. intros [Hc Ha] Hb.
  change (String c a +:+ b) with (String c (a +:+ b)). by split; [|apply IH].
Qed.

Lemma upper_hex_fuel_spec (fuel : nat) :
  ∀ n k, 0 ≤ n < 16 ^ Z.of_nat k → n < 16 ^ Z.of_nat fuel →
         (1 ≤ k)%nat → (1 ≤ fuel)%nat →
         (1 ≤ String.length (upper_hex_fuel fuel n) ≤ k)%nat
         ∧ string_forall is_upper_hex (upper_hex_fuel fuel n).
Proof.
  induction fuel as [|fuel IH]; intros n k Hn Hfuel Hk Hf.
  - lia.
  - simpl. destruct (Z.ltb_spec n 16) as [Hsmall|Hbig].
    + simpl. split; [lia|]. split; [apply hex_digit_upper|done].
    + destruct k as [|k]; [lia|].
      assert (1 ≤ k)%nat.
      { destruct k; [|lia]. simpl in Hn. lia. }
      destruct (IH (n / 16) k) as [Hlen Hall]; try done.
      * split; [apply Z.div_pos; lia|].
        apply Z.div_lt_upper_bound; [lia|].
        rewrite Nat2Z.inj_succ, Z.pow_succ_r in Hn by lia. lia.
      * apply Z.div_lt_upper_bound; [lia|].
        rewrite Nat2Z.inj_succ, Z.pow_succ_r in Hfuel by lia. lia.
      * destruct fuel; [|lia]. simpl in Hfuel. lia.
      * rewrite length_append. simpl. split; [lia|].
        apply string_forall_append; [done|]. split; [apply hex_digit_upper|done].
Qed.

Lemma substring_short (s : string) (m : nat) :
  (String.length s ≤ m)%nat → String.substring 0 m s = s.
Proof.
  revert m. induction s as [|c s IH]; intros m Hm.
  - by destruct m.
  - destruct m as [|m]; simpl in *; [lia|]. rewrite IH; [done|lia].
Qed.

(** X14, the shape of a generated paper ID: between one and eight digits,
    all of them upper-case hexadecimal; the final [substring(0, 8)] never cuts
    anything off. *)
Theorem generatePaperIdFromUrl_shape (url : list Z) :
  generatePaperIdFromUrl url = upper_hex (Z.abs (hash_loop url 0))
  ∧ (1 ≤ String.length (generatePaperIdFromUrl url) ≤ 8)%nat
  ∧ string_forall is_upper_hex (generatePaperIdFromUrl url).
Proof.
  pose proof (hash_loop_range url) as Hr.
  set (n := Z.abs (hash_loop url 0)).
  assert (0 ≤ n ≤ 2 ^ 31) as Hn by (unfold n; lia).
  destruct (upper_hex_fuel_spec (S (Z.to_nat (Z.log2 n))) n 8) as [Hlen Hall].
  - change (16 ^ Z.of_nat 8) with (2 ^ 32). lia.
  - destruct (decide (n = 0)) as [->|Hpos]; [done|].
    pose proof (Z.log2_spec n ltac:(lia)) as [_ Hlog].
    pose proof (Z.log2_nonneg n).
    rewrite Nat2Z.inj_succ, Z2Nat.id by done.
    eapply Z.lt_le_trans; [exact Hlog|].
    change 16 with (2 ^ 4). rewrite <- Z.pow_mul_r by lia.
    apply Z.pow_le_mono_r; lia.
  - lia.
  - lia.
  - unfold generatePaperIdFromUrl. fold n. fold (upper_hex n) in Hlen, Hall.
    rewrite substring_short by lia. by repeat split; try lia.
Qed.

End HashFacts.

Example generatePaperIdFromUrl_empty : generatePaperIdFromUrl [] = "0".
Proof. reflexivity. Qed.

(** The URL [ab]: (97 * 31 + 98) = 3105 = 0xC21. *)
Example generatePaperIdFromUrl_ab : generatePaperIdFromUrl [97; 98] = "C21".
Proof. reflexivity. Qed.

(** ** The paper manager *)

Section NoClosedIssue.
Variable this : client.

(** A cache miss and no closed issue with the ID label, which holds no comma:
    not found. *)
Lemma getObject_no_closed_issue (e : string) (w : world) :
  has_comma (idLabel this e) = false →
  IssueCache.cache (the_cache w) !! e = None →
  (∀ i, i ∈ Tracker.issues (tracker w) → Tracker.state i = Tracker.Closed →
        idLabel this e ∉ Tracker.labels i) →
  getObject this e w = (inl (Error ("No object found with ID: " +:+ e)), w).
Proof.
  intros Hic Hmiss Hnone.
  assert (∀ ls, idLabel this e ∈ ls →
            List.filter (Tracker.matches ls (Some Tracker.Closed) None)
                        (Tracker.issues (tracker w)) = []) as Hq.
  { intros ls Hls.
    induction (Tracker.issues (tracker w)) as [|i l IH]; [done|]. simpl.
    rewrite IH by (intros j Hj; apply Hnone; set_solver).
    destruct (Tracker.matches _ _ _ i) eqn:Hm; [|done]. exfalso.
    unfold Tracker.matches in Hm.
    apply andb_true_iff in Hm as [Hm _]. apply andb_true_iff in Hm as [Hm Hst].
    rewrite forallb_forall in Hm.
    specialize (Hm _ (proj1 (list_elem_of_In _ _) Hls)). apply has_label_true in Hm.
    apply (Hnone i); [set_solver| |done]. by destruct (Tracker.state i). }
  unfold getObject. unfold bind at 1. unfold getObject_cached, bind at 1, cache_get.
  unfold IssueCache.get. rewrite Hmiss. rewrite with_the_cache_same. unfold ret.
  unfold bind at 1. unfold getObject_query, bind at 1, GET_issues, Tracker.list_issues.
  rewrite Hq by (apply labels_param_join_elem; [set_solver|done]). by rewrite take_nil.
Qed.
End NoClosedIssue.

Lemma includes_not_found (e : string) :
  includes "No object found" ("No object found with ID: " +:+ e) = true.
Proof. reflexivity. Qed.

Module PaperFacts.
Import PaperManager.

Section Facts.
Variable toISOString : Z → string.
Variable platform_message : exn → string.
Variable this : t.

Let c := client_of this.

(** X15, [getOrCreateInteractionLog]: whatever it returns passes
    [isInteractionLog]; and when the object stored under the log's ID is of
    another shape, the call throws [Invalid interaction log format] instead
    of returning or replacing it. *)
Theorem getOrCreateInteractionLog_returns_logs (sid pid : string) (w : world) :
  let objectId :=
    SourceIntegrationManager.formatObjectId "interactions" sid pid (sourceManager this) in
  (∀ d w', getOrCreateInteractionLog toISOString platform_message this sid pid w
           = (inr d, w') →
           isInteractionLog d = true)
  ∧ (∀ obj w1, getObject c objectId w = (inr obj, w1) →
       isInteractionLog (data obj) = false →
       getOrCreateInteractionLog toISOString platform_message this sid pid w
       = (inl (Error "Invalid interaction log format"), w1)).
Proof.
  intros objectId. split.
  - intros d w'. unfold getOrCreateInteractionLog, catch_with. unfold bind at 1.
    destruct (getObject _ _ w) as [[x|obj] w1].
    + destruct (not_found platform_message x); [|done].
      unfold bind. destruct (createObject _ _ _ _ _ w1) as [[y|o] w2]; [done|].
      unfold ret. by intros [= <- <-].
    + destruct (isInteractionLog (data obj)) eqn:Hlog.
      * unfold ret. by intros [= <- <-].
      * unfold throw. cbn. done.
  - intros obj w1 Hget Hlog. unfold getOrCreateInteractionLog, catch_with.
    unfold bind at 1. fold objectId. fold c. rewrite Hget, Hlog. reflexivity.
Qed.

(** X16, [getPaper] of an unknown paper: with an ID label without a comma
    (the label query joins the labels with commas), no cache entry and no
    closed issue carrying the paper's ID label, [getPaper] returns [null]
    instead of throwing, and changes nothing. *)
Theorem getPaper_null_when_unknown (sid pid : string) (w : world) :
  let objectId :=
    SourceIntegrationManager.formatObjectId "paper" sid pid (sourceManager this) in
  has_comma (idLabel c objectId) = false →
  IssueCache.cache (the_cache w) !! objectId = None →
  (∀ i, i ∈ Tracker.issues (tracker w) → Tracker.state i = Tracker.Closed →
        idLabel c objectId ∉ Tracker.labels i) →
  getPaper platform_message this sid pid w = (inr None, w).
Proof.
  intros objectId Hic Hmiss Hnone. unfold getPaper, catch_with. unfold bind at 1.
  fold objectId. fold c. rewrite (getObject_no_closed_issue c objectId w Hic Hmiss Hnone).
  unfold not_found, message. by rewrite includes_not_found.
Qed.


(** The world a first [getOrCreatePaper] leaves: the new issue reopened at the
    head of the tracker, and a cache entry for it. *)
Lemma getOrCreatePaper_new (pd : PaperMetadata) (w : world) :
  let objectId :=
    SourceIntegrationManager.formatObjectId "paper" (sourceId pd) (paperId pd)
      (sourceManager this) in
  let d := defaultPaperData toISOString pd (clock w) in
  token_truthy (client_token c) = true →
  has_comma (idLabel c objectId) = false →
  IssueCache.cache (the_cache w) !! objectId = None →
  (∀ i, i ∈ Tracker.issues (tracker w) → Tracker.state i = Tracker.Closed →
        idLabel c objectId ∉ Tracker.labels i) →
  ∃ w' i,
    getOrCreatePaper toISOString platform_message this pd w = (inr d, w')
    ∧ Tracker.issues (tracker w') = i :: Tracker.issues (tracker w)
    ∧ Tracker.number i = S (Tracker.last_number (tracker w))
    ∧ Tracker.last_number (tracker w') = S (Tracker.last_number (tracker w))
    ∧ Tracker.state i = Tracker.Open
    ∧ Tracker.body i = Some (JSONText d)
    ∧ Tracker.labels i = ["gh-store"; baseLabel (client_config c); idLabel c objectId]
    ∧ the_cache w' = IssueCache.set (clock w) objectId (S (Tracker.last_number (tracker w)))
                       (clock w) (clock w) (the_cache w)
    ∧ clock w' = clock w.
Proof.
  intros objectId d Htok Hic Hmiss Hnone.
  unfold getOrCreatePaper, catch_with. unfold bind at 1. fold objectId. fold c.
  rewrite (getObject_no_closed_issue c objectId w Hic Hmiss Hnone).
  unfold not_found, message. rewrite includes_not_found.
  unfold bind at 1. unfold Date_now. unfold bind at 1. fold d.
  rewrite (createObject_ok toISOString c objectId d [] w Htok).
  cbn [meta issueNumber]. unfold bind at 1.
  unfold PATCH_issue, answer, Tracker.patch_state.
  cbn [tracker Tracker.issues Tracker.alter_issue Tracker.number created_issue clock].
  rewrite Nat.eqb_refl. unfold ret.
  eexists _, _. split; [reflexivity|]. cbn. done.
Qed.


(** X18, the duplicate, for a paper as in X17: [getOrCreatePaper] leaves the
    new issue open, so with an empty cache and the issue still open, the next
    [getOrCreatePaper] of the same paper does not find it and creates a second
    issue with the same ID label. *)
Theorem getOrCreatePaper_cold_cache_duplicates (pd : PaperMetadata) (w : world) :
  let objectId :=
    SourceIntegrationManager.formatObjectId "paper" (sourceId pd) (paperId pd)
      (sourceManager this) in
  let d := defaultPaperData toISOString pd (clock w) in
  token_truthy (client_token c) = true →
  has_comma (idLabel c objectId) = false →
  IssueCache.cache (the_cache w) !! objectId = None →
  (∀ i, i ∈ Tracker.issues (tracker w) → Tracker.state i = Tracker.Closed →
        idLabel c objectId ∉ Tracker.labels i) →
  ∃ w' i,
    getOrCreatePaper toISOString platform_message this pd w = (inr d, w')
    ∧ Tracker.issues (tracker w') = i :: Tracker.issues (tracker w)
    ∧ idLabel c objectId ∈ Tracker.labels i
    ∧ let cold := with_the_cache (IssueCache.clear (the_cache w')) w' in
      ∃ w'' i',
        getOrCreatePaper toISOString platform_message this pd cold = (inr d, w'')
        ∧ Tracker.issues (tracker w'') = i' :: i :: Tracker.issues (tracker w)
        ∧ idLabel c objectId ∈ Tracker.labels i'.
Proof.
  intros objectId d Htok Hic Hmiss Hnone.
  destruct (getOrCreatePaper_new pd w Htok Hic Hmiss Hnone)
    as (w' & i & Hrun & Hiss & Hnum & Hlast & Hopen & Hbody & Hlabels & Hcache & Hclock).
  fold objectId in Hrun, Hlabels, Hcache. fold d in Hrun, Hbody.
  exists w', i. split; [done|]. split; [done|].
  split; [rewrite Hlabels; set_solver|]. intros cold.
  destruct (getOrCreatePaper_new pd cold Htok Hic) as
    (w'' & i' & Hrun' & Hiss' & _ & _ & _ & _ & Hlabels' & _ & _).
  - unfold cold. by destruct w'.
  - unfold cold. destruct w' as [ca tr ck]. cbn in *. rewrite Hiss.
    intros j [->|Hj]%elem_of_cons Hst; [congruence|by apply Hnone].
  - exists w'', i'. replace (clock cold) with (clock w) in Hrun'
      by (unfold cold; destruct w'; cbn in *; congruence).
    split; [done|]. split.
    + rewrite Hiss'. unfold cold. destruct w'; cbn in *. by rewrite Hiss.
    + rewrite Hlabels'. set_solver.
Qed.

(** X22, the first interaction of a paper: with no interaction log yet, and
    a base label and an ID label without a comma (the query of
    [updateObject] joins the two with commas), [addInteraction] creates the log's issue with the empty log as its body,
    posts the log with the one interaction as an update comment, and leaves
    the issue open; the history of the issue is the empty log and then the
    log with the interaction. *)
Theorem addInteraction_first (sid pid : string) (x : json) (w : world) :
  let objectId :=
    SourceIntegrationManager.formatObjectId "interactions" sid pid (sourceManager this) in
  let logged :=
    JObj [("sourceId", JStr sid); ("paperId", JStr pid); ("interactions", JArr [x])] in
  token_truthy (client_token c) = true →
  has_comma (baseLabel (client_config c)) = false →
  has_comma (idLabel c objectId) = false →
  0 ≤ IssueCache.ttl (the_cache w) →
  (2 ≤ Tracker.per_page (tracker w))%nat →
  IssueCache.cache (the_cache w) !! objectId = None →
  (∀ i, i ∈ Tracker.issues (tracker w) → Tracker.state i = Tracker.Closed →
        idLabel c objectId ∉ Tracker.labels i) →
  ∃ w' i,
    addInteraction toISOString platform_message this sid pid x w = (inr tt, w')
    ∧ Tracker.issues (tracker w') = i :: Tracker.issues (tracker w)
    ∧ Tracker.state i = Tracker.Open
    ∧ Tracker.body i = Some (JSONText (newLog sid pid))
    ∧ summary <$> getObjectHistory_loop (Tracker.comments i) []
      = [(JStr "initial_state", Some (newLog sid pid)); (JStr "update", Some logged)].
Proof.
  intros objectId logged Htok Hbc Hic Httl Hpage Hmiss Hnone.
  destruct (createObject_backed toISOString c objectId (newLog sid pid) [] w Htok Hbc Hic)
    as (o & w1 & Hcreate & _ & _ & Hb & Httl1 & Hpage1).
  assert (Tracker.issues (tracker w1)
          = created_issue toISOString c objectId (newLog sid pid) [] w
            :: Tracker.issues (tracker w)) as Hiss1.
  { rewrite (createObject_ok toISOString c objectId (newLog sid pid) [] w Htok) in Hcreate.
    by injection Hcreate as _ <-. }
  destruct (updateObject_step toISOString c objectId _ _ _ w1 0 logged Htok Hb)
    as (o2 & w2 & Hup & _ & _ & _ & Hb2 & _); [lia|cbn; lia|].
  destruct (updateObject_reopens toISOString c objectId _ _ _ w1 0 logged Htok Hb)
    as (o3 & w3 & i' & Hup' & Hiss3 & Hopen & _); [lia|cbn; lia|].
  rewrite Hup in Hup'. injection Hup' as _ <-.
  rewrite advance_0 in Hup. rewrite Hiss1 in Hiss3. cbn [tail] in Hiss3.
  destruct Hb2 as [i rest ent Hiss Hnum Hbase Hid _ _ Hbody Hk Hhs _ _ _].
  rewrite Hiss3 in Hiss. injection Hiss as <- <-.
  exists w2, i'. split; [|done].
  unfold addInteraction. unfold bind at 1.
  unfold getOrCreateInteractionLog, catch_with. unfold bind at 1.
  fold objectId. fold c.
  rewrite (getObject_no_closed_issue c objectId w Hic Hmiss Hnone).
  unfold not_found, message. rewrite includes_not_found.
  unfold bind at 1. rewrite Hcreate. unfold ret.
  unfold bind at 1. unfold lift. cbn [push_interaction newLog field String.eqb set_field].
  cbn. fold objectId. fold c. fold logged. unfold bind. by rewrite Hup.
Qed.

End Facts.
End PaperFacts.

(** ** The session service *)

Module SessionFacts.
Import SessionService.

Section Facts.
Variable toISOString : Z → string.
Variable toString : Z → string.

Abbreviation run_event := (run_event toISOString toString).
Abbreviation run_events := (run_events toISOString toString).
Abbreviation endSession := (endSession toISOString toString).

Lemma filter_clear_single (id : nat) (due : Z) :
  List.filter (fun x : nat * Z => negb (Nat.eqb x.1 id)) [(id, due)] = [].
Proof. cbn. by rewrite Nat.eqb_refl. Qed.


Lemma clear_named (this : t) (p : platform) :
  at_most_named this p →
  let p1 := match timeoutId this with
            | Some id => clearTimeout id p
            | None => p
            end in
  timers p1 = [] ∧ now p1 = now p ∧ logged p1 = logged p ∧ last_timer p1 = last_timer p.
Proof.
  intros [Htim|(id & due & Htim & ->)]; cbn.
  - destruct (timeoutId this); cbn; by rewrite ?Htim.
  - by rewrite Htim, filter_clear_single.
Qed.


Lemma pending_named (this : t) (p : platform) :
  timer_pending (this, p) → at_most_named this p.
Proof.
  unfold timer_pending, at_most_named. cbn.
  destruct (activeSession this); [|by intros [-> _]; left].
  intros (id & due & ? & ? & _). right. by eexists _, _.
Qed.

Lemma endSession_active (rnd : string) (this : t) (p : platform) (s : session) :
  activeSession this = Some s →
  at_most_named this p →
  0 ≤ heartbeatCount s → startTime s ≤ now p →
  Forall meaningful (logged p) →
  session_inv (endSession rnd (this, p)).2.
Proof.
  intros Hact Hnamed Hc Hst Hl. unfold SessionService.endSession. rewrite Hact.
  destruct (clear_named this p Hnamed) as (Hclr & Hnow & Hlog & _).
  cbn [snd]. constructor; cbn [fst snd activeSession timeoutId].
  - unfold timer_pending. cbn [fst snd activeSession timeoutId].
    by destruct (_ && _).
  - done.
  - destruct (paperManager this && (0 <? heartbeatCount s)) eqn:Hm; [|by rewrite Hlog].
    cbn [logged]. rewrite Hlog. apply Forall_app. split; [done|].
    apply andb_true_iff in Hm as [_ Hpos%Z.ltb_lt].
    apply Forall_cons. split; [|constructor].
    unfold meaningful. cbn.
    assert (0 ≤ round_seconds (now p - startTime s)).
    { unfold round_seconds. apply Z.div_pos; lia. }
    repeat split; try done; lia.
Qed.

Lemma endSession_inv (rnd : string) (st : t * platform) :
  session_inv st → session_inv (endSession rnd st).2.
Proof.
  intros Hinv. destruct st as [this p].
  destruct (activeSession this) as [s|] eqn:Hact.
  - destruct Hinv as [Ht Hs Hl]. cbn [fst snd] in *.
    destruct (Hs s Hact) as (? & ? & ?).
    eapply endSession_active; try done; [by apply pending_named|lia].
  - unfold SessionService.endSession. by rewrite Hact.
Qed.

Lemma endSession_none (rnd : string) (st : t * platform) :
  activeSession (endSession rnd st).2.1 = None.
Proof.
  destruct st as [this p]. unfold SessionService.endSession.
  by destruct (activeSession this) eqn:Hact.
Qed.

Lemma scheduleTimeoutCheck_inv (this : t) (p : platform) (s : session) :
  activeSession this = Some s →
  at_most_named this p →
  lastHeartbeatTime s ≤ now p →
  now p ≤ lastHeartbeatTime s + HEARTBEAT_TIMEOUT →
  0 ≤ heartbeatCount s → startTime s ≤ lastHeartbeatTime s →
  Forall meaningful (logged p) →
  session_inv (scheduleTimeoutCheck (this, p)).
Proof.
  intros Hact Hnamed Hlo Hhi Hc Hst Hl. unfold scheduleTimeoutCheck.
  destruct (clear_named this p Hnamed) as (Hclr & Hnow & Hlog & _).
  unfold setTimeout. rewrite Hclr, Hnow, Hlog.
  constructor; cbn [fst snd activeSession timeoutId now logged timers].
  - unfold timer_pending. cbn [fst snd activeSession timeoutId now logged timers].
    rewrite Hact. eexists _, _. split; [reflexivity|]. split; [reflexivity|].
    unfold HEARTBEAT_TIMEOUT in *. lia.
  - intros s' Hs'. rewrite Hact in Hs'. injection Hs' as <-. lia.
  - done.
Qed.

Lemma run_event_inv (ev : event) (st : t * platform) :
  session_inv st → session_inv (run_event ev st).
Proof.
  intros Hinv. destruct ev as [sid pid md rnd| |rnd|sid pid md|dt|id rnd];
    cbn [SessionService.run_event].
  - (* startSession *)
    unfold startSession.
    pose proof (endSession_inv rnd st Hinv) as [Ht Hs Hl].
    pose proof (endSession_none rnd st) as Hnone.
    destruct (endSession rnd st).2 as [this p]. cbn [fst snd] in *.
    apply pending_named in Ht.
    eapply scheduleTimeoutCheck_inv; cbn; try done.
    all: cbn; unfold HEARTBEAT_TIMEOUT; lia.
  - (* recordHeartbeat *)
    destruct st as [this p]. unfold recordHeartbeat.
    destruct (activeSession this) as [s|] eqn:Hact; [|exact Hinv].
    destruct Hinv as [Ht Hs Hl]. cbn [fst snd] in *.
    destruct (Hs s Hact) as (Hc & Hst & Hlast).
    apply pending_named in Ht.
    eapply scheduleTimeoutCheck_inv; cbn; try done; cbn; unfold HEARTBEAT_TIMEOUT; try lia.
  - by apply endSession_inv.
  - destruct Hinv as [Ht Hs Hl]. destruct st as [this p].
    constructor; cbn in *; try done.
  - destruct Hinv as [Ht Hs Hl]. destruct st as [this p].
    constructor; cbn [fst snd now timers logged] in *; try done.
    + unfold timer_pending in *. cbn [fst snd now timers] in *.
      destruct (activeSession this); [|done].
      destruct Ht as (id & due & ? & ? & ? & ? & ?). eexists _, _.
      repeat split; try done. lia.
    + intros s Hact. specialize (Hs s Hact). lia.
  - (* a timer runs *)
    destruct (due id st.2) eqn:Hdue; [|done].
    destruct Hinv as [Ht Hs Hl]. destruct st as [this p].
    unfold timer_pending in Ht. cbn [fst snd] in *.
    unfold due in Hdue. apply existsb_exists in Hdue as ([id' d] & Hin & Hd).
    destruct (activeSession this) as [s|] eqn:Hact.
    2:{ destruct Ht as [Htim _]. rewrite Htim in Hin. done. }
    destruct Ht as (id0 & due0 & Htim & Hid & Hlo & Hhi & Hnow).
    rewrite Htim in Hin. destruct Hin as [[= <- <-]|[]].
    cbn in Hd. apply andb_true_iff in Hd as [->%Nat.eqb_eq Hd%Z.leb_le].
    destruct (Hs s eq_refl) as (Hc & Hst & Hlast).
    assert (timers (clearTimeout id p) = []) as Hclr
      by (cbn; by rewrite Htim, filter_clear_single).
    unfold checkTimeout. rewrite Hact.
    destruct (Z.ltb_spec HEARTBEAT_TIMEOUT (now (clearTimeout id p) - lastHeartbeatTime s)).
    + eapply endSession_active; try done; [by left|cbn; lia].
    + eapply scheduleTimeoutCheck_inv; try done; [by left|cbn in *; lia].
Qed.

Lemma run_events_inv (evs : list event) (st : t * platform) :
  session_inv st → session_inv (run_events evs st).
Proof.
  revert st. induction evs as [|ev evs IH]; intros st Hinv; [done|].
  cbn. apply IH. by apply run_event_inv.
Qed.

Lemma boot_inv (pm : bool) (t0 : Z) : session_inv (constructor pm, boot t0).
Proof. constructor; cbn; done. Qed.

(** X19, the timeout timer: after any sequence of calls, clock moves and timer
    callbacks on a new service, exactly one timeout check is pending while a
    session is active, the one [timeoutId] names, due between one and two
    timeouts after the last heartbeat; with no session none is pending. *)
Theorem one_timeout_check_per_session (pm : bool) (t0 : Z) (evs : list event) :
  timer_pending (run_events evs (constructor pm, boot t0)).
Proof. by destruct (run_events_inv evs _ (boot_inv pm t0)). Qed.

(** X20, what gets stored: after any sequence of calls, clock moves and timer
    callbacks, every session handed to [logReadingSession] has at least one
    heartbeat, five seconds of duration per heartbeat, a total elapsed time
    that is not negative, and idle seconds that make up the difference when
    the elapsed time is the longer one. *)
Theorem only_sessions_with_heartbeats_are_stored (pm : bool) (t0 : Z)
    (evs : list event) :
  Forall meaningful (logged (run_events evs (constructor pm, boot t0)).2).
Proof. by destruct (run_events_inv evs _ (boot_inv pm t0)). Qed.

(** With heartbeats in time the session goes on and counts them. *)
Lemma in_time_counts (evs : list event) (st : t * platform) (s : session) :
  session_inv st →
  activeSession st.1 = Some s →
  in_time (now st.2 - lastHeartbeatTime s) evs = true →
  ∃ s', activeSession (run_events evs st).1 = Some s'
        ∧ sourceId s' = sourceId s ∧ paperId s' = paperId s
        ∧ startTime s' = startTime s
        ∧ heartbeatCount s' = heartbeatCount s + heartbeats evs.
Proof.
  revert st s. induction evs as [|ev evs IH]; intros st s Hinv Hact Htime.
  { exists s. cbn. unfold heartbeats. cbn. repeat split; try done. lia. }
  pose proof (run_event_inv ev st Hinv) as Hinv'.
  destruct ev as [sid pid md rnd| |rnd|sid pid md|dt|id rnd]; cbn in Htime; try done.
  - (* a heartbeat *)
    destruct st as [this p]. cbn [fst snd] in *.
    set (s1 := Session (sourceId s) (paperId s) (startTime s) (heartbeatCount s + 1) (now p)).
    destruct (IH (run_event RecordHeartbeat (this, p)) s1 Hinv') as (s' & ? & ? & ? & ? & Hn).
    + cbn. unfold recordHeartbeat. rewrite Hact. cbn [snd]. unfold scheduleTimeoutCheck.
      by destruct (timeoutId this).
    + cbn. unfold recordHeartbeat. rewrite Hact. cbn [snd]. unfold scheduleTimeoutCheck.
      replace (now _) with (now p) by (by destruct (timeoutId this)).
      cbn. by rewrite Z.sub_diag.
    + exists s'. cbn [SessionService.run_events fold_left]. repeat split; try done.
      rewrite Hn. unfold heartbeats, s1. cbn. lia.
  - destruct st as [this p]. cbn [fst snd] in *.
    destruct (IH (run_event (StorePaperMetadata sid pid md) (this, p)) s Hinv')
      as (s' & ? & ? & ? & ? & Hn); [done|done|].
    exists s'. cbn [SessionService.run_events fold_left]. repeat split; try done.
  - destruct st as [this p]. cbn [fst snd] in *.
    destruct (IH (run_event (Tick dt) (this, p)) s Hinv') as (s' & ? & ? & ? & ? & Hn);
      [done| |].
    + cbn. by replace (now p + Z.of_N dt - lastHeartbeatTime s)
        with (now p - lastHeartbeatTime s + Z.of_N dt) by lia.
    + exists s'. cbn [SessionService.run_events fold_left]. repeat split; try done.
  - (* a timer runs *)
    apply andb_true_iff in Htime as [Hle%Z.leb_le Htime].
    destruct st as [this p]. cbn [fst snd] in *.
    assert (activeSession (run_event (Fire id rnd) (this, p)).1 = Some s
            ∧ now (run_event (Fire id rnd) (this, p)).2 = now p) as [Hact' Hnow'].
    { assert ((HEARTBEAT_TIMEOUT <? now p - lastHeartbeatTime s) = false) as Hlt
        by (apply Z.ltb_ge; lia).
      cbn. destruct (due id p); [|done]. unfold checkTimeout. rewrite Hact.
      cbn [now clearTimeout]. rewrite Hlt.
      unfold scheduleTimeoutCheck. by destruct (timeoutId this). }
    destruct (IH (run_event (Fire id rnd) (this, p)) s Hinv' Hact')
      as (s' & ? & ? & ? & ? & Hn); [by rewrite Hnow'|].
    exists s'. cbn [SessionService.run_events fold_left]. repeat split; try done.
Qed.

(** X21, heartbeats in time: after [startSession], through heartbeats, clock
    moves and timer callbacks such that no callback runs more than
    [HEARTBEAT_TIMEOUT] after the last heartbeat, the session stays active,
    and [endSession] reports its source and paper, the number of heartbeats
    and five seconds for each. *)
Theorem heartbeats_in_time_are_counted (pm : bool) (t0 : Z) (before evs : list event)
    (sid pid : string) (md : option json) (rnd rnd' : string) :
  in_time 0 evs = true →
  ∃ d st,
    endSession rnd'
      (run_events (before ++ StartSession sid pid md rnd :: evs) (constructor pm, boot t0))
    = (Some d, st)
    ∧ source_id d = sid ∧ paper_id d = pid
    ∧ heartbeat_count d = heartbeats evs
    ∧ duration_seconds d = 5 * heartbeats evs.
Proof.
  intros Htime. unfold SessionService.run_events. rewrite fold_left_app. cbn [fold_left].
  fold (run_events before (constructor pm, boot t0)).
  pose proof (run_events_inv before _ (boot_inv pm t0)) as Hinv.
  set (st0 := run_events before (constructor pm, boot t0)) in *.
  pose proof (run_event_inv (StartSession sid pid md rnd) st0 Hinv) as Hinv1.
  set (st1 := run_event (StartSession sid pid md rnd) st0) in *.
  assert (∃ s, activeSession st1.1 = Some s ∧ sourceId s = sid ∧ paperId s = pid
               ∧ heartbeatCount s = 0 ∧ lastHeartbeatTime s = now st1.2)
    as (s & Hact & Hsid & Hpid & Hc & Hlast).
  { unfold st1. cbn. unfold startSession.
    destruct (endSession rnd st0).2 as [this p]. unfold scheduleTimeoutCheck.
    eexists. split; [by destruct (timeoutId _)|].
    cbn. repeat split; try done. by destruct (timeoutId this). }
  destruct (in_time_counts evs st1 s Hinv1 Hact) as (s' & Hact' & ? & ? & ? & Hn).
  { by rewrite Hlast, Z.sub_diag. }
  fold (run_events evs st1). destruct (run_events evs st1) as [this p].
  cbn [fst] in Hact'. unfold SessionService.endSession. rewrite Hact'.
  eexists _, _. split; [reflexivity|]. cbn. repeat split; try congruence; lia.
Qed.

End Facts.
End SessionFacts.

(** ** Instances *)

Lemma size_never_exceeds_maxSize_witness :
  let o := IssueCache.Options (Some 2) None in
  let ops := [OpSet 0 "a" 1 0 0; OpSet 1 "b" 2 0 0; OpGet 2 "a"; OpSet 3 "c" 3 0 0] in
  Z.of_nat (size (IssueCache.cache (run_ops ops (IssueCache.constructor o))))
  ≤ IssueCache.maxSize (IssueCache.constructor o)
  ∧ IssueCache.maxSize (run_ops ops (IssueCache.constructor o))
    = IssueCache.maxSize (IssueCache.constructor o).
Proof.
  intros o ops. apply (CacheOps.size_never_exceeds_maxSize o ops).
  - vm_compute. discriminate.
  - repeat (apply Forall_cons; split; [vm_compute; try discriminate; done|]).
    constructor.
Defined.

Lemma set_survives_other_sets_witness :
  (IssueCache.get 10 "a"
     (run_sets [SetCall 1 "b" 2 0 0; SetCall 2 "c" 3 0 0]
        (IssueCache.set 0 "a" 1 0 0
           (IssueCache.constructor (IssueCache.Options None None))))).1
  = Some 1%nat.
Proof.
  apply (CacheOps.set_survives_other_sets
           (IssueCache.constructor (IssueCache.Options None None)) 0 "a" 1 0 0
           [SetCall 1 "b" 2 0 0; SetCall 2 "c" 3 0 0] 10).
  - split; [constructor|vm_compute; reflexivity].
  - repeat (apply Forall_cons; split; [vm_compute; discriminate|]). constructor.
  - vm_compute. reflexivity.
  - vm_compute. discriminate.
Defined.


Lemma _getObjectIdFromLabels_first_uid_witness :
  _getObjectIdFromLabels_loop demo_client ["gh-store"; "stored-object"]
  = inl (Error "No UID label found with prefix UID:")
  ∧ ("UID:paper:42" ≠ "stored-object" →
     _getObjectIdFromLabels_loop demo_client
       ["gh-store"; "stored-object"; "UID:paper:42"; "UID:other"] = inr "paper:42").
Proof.
  apply (_getObjectIdFromLabels_first_uid demo_client ["gh-store"; "stored-object"]
           ["UID:other"] "paper:42").
  apply Forall_cons. split; [right; reflexivity|].
  apply Forall_cons. split; [left; reflexivity|]. constructor.
Defined.

Lemma unknown_id_not_found_witness :
  getObject demo_client "nope" fresh_world
  = (inl (Error "No object found with ID: nope"), fresh_world)
  ∧ getObjectHistory demo_client "nope" fresh_world
    = (inl (Error "No object found with ID: nope"), fresh_world)
  ∧ (token_truthy (client_token demo_client) = true →
     ∀ d, updateObject epoch_toISOString demo_client "nope" d fresh_world
          = (inl (Error "No object found with ID: nope"), fresh_world)).
Proof.
  apply (unknown_id_not_found epoch_toISOString demo_client "nope" fresh_world).
  - reflexivity.
  - reflexivity.
  - intros i Hi. vm_compute in Hi. by apply elem_of_nil in Hi.
Defined.

Lemma listAll_after_createObject_witness :
  ∃ o w1 res,
    createObject epoch_toISOString demo_client "paper:42" paper_X [] fresh_world
    = (inr o, w1)
    ∧ listAll demo_client w1 = (inr res, w1)
    ∧ res !! "paper:42"
      = Some {| meta := {| objectId := "paper:42"; label := "paper:42";
                           issueNumber := issueNumber (meta o);
                           createdAt := createdAt (meta o);
                           updatedAt := clock fresh_world; version := 2 |};
                data := paper_X |}.
Proof.
  apply (listAll_after_createObject epoch_toISOString demo_client "paper:42" paper_X []
           fresh_world).
  - reflexivity.
  - reflexivity.
  - vm_compute. lia.
  - discriminate.
  - apply not_elem_of_nil.
  - intros i Hi. vm_compute in Hi. by apply elem_of_nil in Hi.
Defined.


Lemma getOrCreateInteractionLog_returns_logs_witness :
  isInteractionLog (PaperManager.newLog "arxiv" "2301.00001") = true
  ∧ let w := (createObject epoch_toISOString demo_client
                "interactions:arxiv.2301.00001" paper_X [] fresh_world).2 in
    (PaperManager.getOrCreateInteractionLog epoch_toISOString engine_message
       demo_manager "arxiv" "2301.00001" w).1
    = inl (Error "Invalid interaction log format").
Proof.
  split.
  - eapply (proj1 (PaperFacts.getOrCreateInteractionLog_returns_logs
                     epoch_toISOString engine_message demo_manager
                     "arxiv" "2301.00001" fresh_world)).
    vm_compute. reflexivity.
  - intros w.
    erewrite (proj2 (PaperFacts.getOrCreateInteractionLog_returns_logs
                       epoch_toISOString engine_message demo_manager
                       "arxiv" "2301.00001" w)).
    + reflexivity.
    + vm_compute. reflexivity.
    + reflexivity.
Defined.

Lemma getPaper_null_when_unknown_witness :
  PaperManager.getPaper engine_message demo_manager "arxiv" "2301.00001" fresh_world
  = (inr None, fresh_world).
Proof.
  apply (PaperFacts.getPaper_null_when_unknown engine_message demo_manager
           "arxiv" "2301.00001" fresh_world).
  - reflexivity.
  - reflexivity.
  - intros i Hi. vm_compute in Hi. by apply elem_of_nil in Hi.
Defined.


Lemma getOrCreatePaper_cold_cache_duplicates_witness :
  let d := PaperManager.defaultPaperData epoch_toISOString paper_2301 0 in
  ∃ w' i,
    PaperManager.getOrCreatePaper epoch_toISOString engine_message demo_manager
      paper_2301 fresh_world = (inr d, w')
    ∧ Tracker.issues (tracker w') = i :: Tracker.issues (tracker fresh_world)
    ∧ "UID:paper:arxiv.2301.00001" ∈ Tracker.labels i
    ∧ let cold := with_the_cache (IssueCache.clear (the_cache w')) w' in
      ∃ w'' i',
        PaperManager.getOrCreatePaper epoch_toISOString engine_message demo_manager
          paper_2301 cold = (inr d, w'')
        ∧ Tracker.issues (tracker w'')
          = i' :: i :: Tracker.issues (tracker fresh_world)
        ∧ "UID:paper:arxiv.2301.00001" ∈ Tracker.labels i'.
Proof.
  apply (PaperFacts.getOrCreatePaper_cold_cache_duplicates epoch_toISOString
           engine_message demo_manager paper_2301 fresh_world).
  - reflexivity.
  - reflexivity.
  - reflexivity.
  - intros i Hi. vm_compute in Hi. by apply elem_of_nil in Hi.
Defined.

Lemma heartbeats_in_time_are_counted_witness :
  let evs := [SessionService.RecordHeartbeat; SessionService.Tick 5000;
              SessionService.RecordHeartbeat; SessionService.Tick 15000;
              SessionService.Fire 3 "r1"] in
  ∃ d st,
    SessionService.endSession epoch_toISOString epoch_toString "r2"
      (SessionService.run_events epoch_toISOString epoch_toString
         ([] ++ SessionService.StartSession "arxiv" "2301.00001" None "r0" :: evs)
         (SessionService.constructor true, SessionService.boot 0))
    = (Some d, st)
    ∧ SessionService.source_id d = "arxiv"
    ∧ SessionService.paper_id d = "2301.00001"
    ∧ SessionService.heartbeat_count d = SessionService.heartbeats evs
    ∧ SessionService.duration_seconds d = 5 * SessionService.heartbeats evs.
Proof.
  intros evs.
  apply (SessionFacts.heartbeats_in_time_are_counted epoch_toISOString epoch_toString true 0 []
           evs "arxiv" "2301.00001" None "r0" "r2").
  reflexivity.
Defined.

Lemma addInteraction_first_witness :
  let x := JObj [("type", JStr "rating"); ("data", JStr "up")] in
  ∃ w' i,
    PaperManager.addInteraction epoch_toISOString engine_message demo_manager
      "arxiv" "2301.00001" x fresh_world = (inr tt, w')
    ∧ Tracker.issues (tracker w') = i :: Tracker.issues (tracker fresh_world)
    ∧ Tracker.state i = Tracker.Open
    ∧ Tracker.body i = Some (JSONText (PaperManager.newLog "arxiv" "2301.00001"))
    ∧ summary <$> getObjectHistory_loop (Tracker.comments i) []
      = [(JStr "initial_state", Some (PaperManager.newLog "arxiv" "2301.00001"));
         (JStr "update",
          Some (JObj [("sourceId", JStr "arxiv"); ("paperId", JStr "2301.00001");
                      ("interactions", JArr [x])]))].
Proof.
  intros x.
  apply (PaperFacts.addInteraction_first epoch_toISOString engine_message demo_manager
           "arxiv" "2301.00001" x fresh_world).
  - reflexivity.
  - reflexivity.
  - reflexivity.
  - vm_compute. discriminate.
  - vm_compute. lia.
  - reflexivity.
  - intros i Hi. vm_compute in Hi. by apply elem_of_nil in Hi.
Defined.
